(** * The differentiation parameter-index model of [lib/AST/AutoDiff.cpp]

    A shallow embedding of the index/metadata model of the Swift automatic
    differentiation support: [SILAutoDiffIndices], the associated-function
    addressing arithmetic, and [AutoDiffParameterIndices] with its textual
    encoding, its setters, and its translation to the lowered (tuple-exploded,
    self-last) parameter list.

    Conventions of the embedding.
    - A C++ [unsigned] is an integer in [Z]; every arithmetic operation the
      source performs on [unsigned] values is reduced modulo [2^32]
      ([U32.add], [U32.sub], [U32.mul]), and the cast [(int)] is [U32.to_int].
    - A failed [assert] ends the run: [Fatal msg], with the message of the
      assertion.  So does an access that breaks the contract of an LLVM
      container (an index past the end of a [StringRef], an [ArrayRef], a
      [SmallVector] or a [SmallBitVector]).  A function that can reach one
      returns an [outcome].
    - [llvm::SmallBitVector] is a [list bool]; bit [i] is the [i]-th element.
      The [size()] of a container is the length of the list; theorems that
      need a size to fit an [unsigned] say so.
    - A loop [for (unsigned i : range(n))] is a recursion over the list of
      indices [range n]. *)

From Stdlib Require Import ZArith List Ascii String Lia Bool.
From stdpp Require Import base tactics option list list_numbers.

Local Open Scope Z_scope.

(** ** Outcomes: a run either returns or dies on an assertion *)

Inductive outcome (A : Type) : Type :=
| Done (a : A)
| Fatal (msg : string).
Arguments Done {A} a.
Arguments Fatal {A} msg.

Definition bind {A B} (m : outcome A) (k : A -> outcome B) : outcome B :=
  match m with
  | Done a => k a
  | Fatal msg => Fatal msg
  end.

Declare Scope outcome_scope.
Delimit Scope outcome_scope with outcome.
Notation "'let*' x := m 'in' k" := (bind m (fun x => k))
  (at level 10, x name, m at level 100, k at level 200) : outcome_scope.
Local Open Scope outcome_scope.

(** [returns m] holds when the run did not abort. *)
Definition returns {A} (m : outcome A) : Prop := exists a, m = Done a.
Definition aborts {A} (m : outcome A) : Prop := exists msg, m = Fatal msg.

(** ** 32-bit unsigned arithmetic *)

Module U32.
Definition modulus : Z := 2 ^ 32.
Definition wrap (z : Z) : Z := z mod modulus.
Definition add (a b : Z) : Z := wrap (a + b).
Definition sub (a b : Z) : Z := wrap (a - b).
Definition mul (a b : Z) : Z := wrap (a * b).
(** The conversion [(int)u] of an [unsigned] (two's complement). *)
Definition to_int (u : Z) : Z :=
  if u <? 2 ^ 31 then u else u - modulus.
Definition in_range (z : Z) : Prop := 0 <= z < modulus.
End U32.

(** [swift::range(n)]: the indices [0, 1, ..., n-1]. *)
Definition range (n : Z) : list Z := seqZ 0 n.

(** Checked element access, shared by [StringRef::operator[]],
    [ArrayRef::operator[]] and [SmallVector::operator[]]. *)
Definition at_index {A} (l : list A) (i : Z) (msg : string) : outcome A :=
  if (0 <=? i) && (i <? Z.of_nat (length l)) then
    match l !! Z.to_nat i with
    | Some a => Done a
    | None => Fatal msg
    end
  else Fatal msg.

(** ** [llvm::SmallBitVector] *)

Abbreviation bitvec := (list bool).

Module SmallBitVector.
Definition size (v : bitvec) : Z := Z.of_nat (length v).

(** [SmallBitVector(unsigned s, bool t = false)] *)
Definition make (s : Z) (t : bool) : bitvec := replicate (Z.to_nat s) t.

(** [resize(N)]: truncates, or grows with unset bits. *)
Definition resize (v : bitvec) (n : Z) : bitvec :=
  take (Z.to_nat n) v ++ replicate (Z.to_nat n - length v)%nat false.

Definition in_bounds (v : bitvec) (i : Z) : bool :=
  (0 <=? i) && (i <? size v).

(** [operator[](Idx)], which asserts [Idx < size()]. *)
Definition get (v : bitvec) (i : Z) : outcome bool :=
  at_index v i "Out-of-bounds Bit access.".

(** [set(Idx)].  The contract of the container is [Idx < size()]; LLVM does
    not check it, and the model ends the run on an index that breaks it. *)
Definition set (v : bitvec) (i : Z) : outcome bitvec :=
  if in_bounds v i then Done (<[Z.to_nat i := true]> v)
  else Fatal "SmallBitVector::set: Idx out of range".

(** [set(I, E)]: sets the bits of the half-open range [I, E). *)
Definition set_range (v : bitvec) (I E : Z) : outcome bitvec :=
  if negb (I <=? E) then Fatal "Attempted to set backwards range!"
  else if negb (E <=? size v) then
    Fatal "Attempted to set out-of-bounds range!"
  else
    Done (take (Z.to_nat I) v
          ++ replicate (Z.to_nat E - Z.to_nat I)%nat true
          ++ drop (Z.to_nat E) v).

(** [set()]: sets every bit. *)
Definition set_all (v : bitvec) : bitvec := map (fun _ => true) v.

(** [operator^=]: grows the receiver to the longer size, then xors the
    bits of [rhs] in. *)
Definition xor_assign (v rhs : bitvec) : bitvec :=
  let n := Z.max (size v) (size rhs) in
  zip_with xorb (resize v n) (resize rhs n).

(** [none()]: no bit is set. *)
Definition none (v : bitvec) : bool := forallb negb v.
End SmallBitVector.

(** [bit v i]: position [i] exists in [v] and is set. *)
Definition bit (v : bitvec) (i : nat) : Prop := v !! i = Some true.

(** ** [SILAutoDiffIndices] *)

Module SILAutoDiffIndices.
Record t := mk { source : Z; parameters : bitvec }.

(** The body of the constructor's loop: the ascending-order assertion,
    then [this->parameters.set(paramIdx)]. *)
Fixpoint set_ascending (ps : list Z) (last : Z) (bits : bitvec)
  : outcome bitvec :=
  match ps with
  | [] => Done bits
  | paramIdx :: rest =>
      if U32.to_int paramIdx >? last then
        let* bits' := SmallBitVector.set bits paramIdx in
        set_ascending rest (U32.to_int paramIdx) bits'
      else Fatal "Parameter indices must be ascending"
  end.

(** [SILAutoDiffIndices(unsigned source, ArrayRef<unsigned> parameters)] *)
Definition create (source : Z) (parameters : list Z) : outcome t :=
  match parameters with
  | [] => Done (mk source [])
  | p :: rest =>
      let max := fold_left Z.max rest p in
      let bits := SmallBitVector.resize [] (U32.add max 1) in
      let* bits' := set_ascending parameters (-1) bits in
      Done (mk source bits')
  end.

(** [operator==] *)
Definition eqb (a b : t) : bool :=
  if negb (source a =? source b) then false
  else
    let buffer :=
      SmallBitVector.make
        (Z.max (SmallBitVector.size (parameters a))
               (SmallBitVector.size (parameters b))) false in
    let buffer := SmallBitVector.xor_assign buffer (parameters a) in
    let buffer := SmallBitVector.xor_assign buffer (parameters b) in
    SmallBitVector.none buffer.
End SILAutoDiffIndices.

(** ** Associated-function addressing *)

Inductive AutoDiffAssociatedFunctionKind := JVP | VJP.

(** Modelled from the spec: the enumeration's raw values are declared in
    [swift/AST/AutoDiff.h]; the spec gives them as the enumerated position of
    the kind, JVP = 0 and VJP = 1. *)
Definition rawValue (kind : AutoDiffAssociatedFunctionKind) : Z :=
  match kind with
  | JVP => 0
  | VJP => 1
  end.

Module autodiff.
Definition getNumAutoDiffAssociatedFunctions (differentiationOrder : Z) : Z :=
  U32.mul differentiationOrder 2.

Definition getOffsetForAutoDiffAssociatedFunction
    (order : Z) (kind : AutoDiffAssociatedFunctionKind) : Z :=
  U32.add
    (U32.mul (U32.sub order 1) (getNumAutoDiffAssociatedFunctions order))
    (rawValue kind).
End autodiff.

(** ** Types and function shapes *)

(** Canonical types, as far as this file looks into them: a tuple exposes its
    element types, a function type its parameter types and its result, and
    every other type is a leaf. *)
#[warnings="-register-all"] Inductive Ty : Type :=
| Nominal (name : string)
| TupleType (elements : list Ty)
| FunctionType (params : list Ty) (result : Ty).

(** [AnyFunctionType]: the plain types of the parameters, and the result. *)
Record AnyFunctionType := mkFn { getParams : list Ty; getResult : Ty }.

Definition getNumParams (functionType : AnyFunctionType) : Z :=
  Z.of_nat (length (getParams functionType)).

(** [getParams()[i].getPlainType()] *)
Definition getParamType (functionType : AnyFunctionType) (i : Z) : outcome Ty :=
  at_index (getParams functionType) i "Invalid index!".

(** [type->castTo<AnyFunctionType>()] *)
Definition castToAnyFunctionType (type : Ty) : outcome AnyFunctionType :=
  match type with
  | FunctionType params result => Done (mkFn params result)
  | _ => Fatal "cast<Ty>() argument of incompatible type!"
  end.

Definition unwrapSelfParameter (functionType : AnyFunctionType)
    (isMethod : bool) : outcome AnyFunctionType :=
  if isMethod then
    if getNumParams functionType =? 1 then
      castToAnyFunctionType (getResult functionType)
    else Fatal "unexpected num params for method"
  else Done functionType.

(** The accumulator of [accumulate] starts at [0] and each step adds, in
    [unsigned] arithmetic, the count of the next element type. *)
Fixpoint countNumFlattenedElementTypes (type : Ty) : Z :=
  match type with
  | TupleType elements =>
      fold_left
        (fun num type => U32.add num (countNumFlattenedElementTypes type))
        elements 0
  | _ => 1
  end.

(** ** [AutoDiffParameterIndices] *)

Module AutoDiffParameterIndices.
Record t := mk { indices : bitvec; isMethodFlag : bool }.

(** Modelled from the spec: the constructor
    [AutoDiffParameterIndices(unsigned, bool, bool)] is declared in
    [swift/AST/AutoDiff.h]; by the spec it allocates a zero vector of the
    given size and, if [setAllParams], sets every bit. *)
Definition make (numIndices : Z) (isMethodFlag setAllParams : bool) : t :=
  let zero := SmallBitVector.make numIndices false in
  mk (if setAllParams then SmallBitVector.set_all zero else zero)
     isMethodFlag.

(** [create(ASTContext &, AnyFunctionType *, bool, bool)] *)
Definition create (functionType : AnyFunctionType)
    (isMethod setAllParams : bool) : outcome t :=
  let* unwrapped := unwrapSelfParameter functionType isMethod in
  let paramCount :=
    U32.add (getNumParams unwrapped) (if isMethod then 1 else 0) in
  Done (make paramCount isMethod setAllParams).

(** The loop of the string decoder; [None] is the early [return nullptr]. *)
Fixpoint parse_flags (string : list ascii) (idxs : list Z) (indices : bitvec)
  : outcome (option bitvec) :=
  match idxs with
  | [] => Done (Some indices)
  | i :: rest =>
      let* c := at_index string (U32.add i 1) "Invalid index!" in
      if (c =? "S")%char then
        let* indices' := SmallBitVector.set indices i in
        parse_flags string rest indices'
      else if negb (c =? "U")%char then Done None
      else parse_flags string rest indices
  end.

(** [create(ASTContext &, StringRef)]; [None] is [nullptr]. *)
Definition create_of_string (string : list ascii) : outcome (option t) :=
  if Z.of_nat (length string) <? 2 then Done None
  else
    let indices :=
      SmallBitVector.make (U32.wrap (Z.of_nat (length string) - 1)) false in
    let* c0 := at_index string 0 "Invalid index!" in
    let marker :=
      if (c0 =? "M")%char then Some true
      else if negb (c0 =? "F")%char then None
      else Some false in
    match marker with
    | None => Done None
    | Some isMethod =>
        let* flags :=
          parse_flags string (range (SmallBitVector.size indices)) indices in
        Done (option_map (fun indices => mk indices isMethod) flags)
    end.

(** The loop of [getString]. *)
Fixpoint append_flags (indices : bitvec) (idxs : list Z) (result : list ascii)
  : outcome (list ascii) :=
  match idxs with
  | [] => Done result
  | i :: rest =>
      let* b := SmallBitVector.get indices i in
      append_flags indices rest
        (result ++ [if b then "S"%char else "U"%char])
  end.

Definition getString (x : t) : outcome (list ascii) :=
  let result := [] in
  let result :=
    result ++ [if isMethodFlag x then "M"%char else "F"%char] in
  append_flags (indices x) (range (SmallBitVector.size (indices x))) result.

Definition getNumNonSelfParameters (x : t) : Z :=
  U32.sub (SmallBitVector.size (indices x))
          (if isMethodFlag x then 1 else 0).

Definition setNonSelfParameter (x : t) (paramIndex : Z) : outcome t :=
  if paramIndex <? getNumNonSelfParameters x then
    let* indices' := SmallBitVector.set (indices x) paramIndex in
    Done (mk indices' (isMethodFlag x))
  else Fatal "paramIndex out of bounds".

Definition setAllNonSelfParameters (x : t) : outcome t :=
  let* indices' :=
    SmallBitVector.set_range (indices x) 0 (getNumNonSelfParameters x) in
  Done (mk indices' (isMethodFlag x)).

Definition setSelfParameter (x : t) : outcome t :=
  if isMethodFlag x then
    let* indices' :=
      SmallBitVector.set (indices x)
        (U32.sub (SmallBitVector.size (indices x)) 1) in
    Done (mk indices' (isMethodFlag x))
  else Fatal "trying to add self param to non-method parameter indices".

(** [isMethodFlag && indices[indices.size() - 1]]; the bit is read only
    when the flag is set. *)
Definition selfSelected (x : t) : outcome bool :=
  if isMethodFlag x then
    SmallBitVector.get (indices x)
      (U32.sub (SmallBitVector.size (indices x)) 1)
  else Done false.

(** The loops of [getSubsetParameterTypes]: push the plain type of every
    parameter of [functionType] whose index is in the set. *)
Fixpoint push_selected (x : t) (functionType : AnyFunctionType)
    (idxs : list Z) (paramTypes : list Ty) : outcome (list Ty) :=
  match idxs with
  | [] => Done paramTypes
  | paramIndex :: rest =>
      let* b := SmallBitVector.get (indices x) paramIndex in
      if b then
        let* ty := getParamType functionType paramIndex in
        push_selected x functionType rest (paramTypes ++ [ty])
      else push_selected x functionType rest paramTypes
  end.

(** [paramTypes] is the vector the types are pushed to; the result is its
    final contents. *)
Definition getSubsetParameterTypes (x : t) (functionType : AnyFunctionType)
    (paramTypes : list Ty) (selfUncurried : bool) : outcome (list Ty) :=
  if selfUncurried && isMethodFlag x then
    let* self := selfSelected x in
    let* paramTypes :=
      if self then
        let* ty :=
          getParamType functionType (U32.sub (getNumParams functionType) 1) in
        Done (paramTypes ++ [ty])
      else Done paramTypes in
    push_selected x functionType
      (range (U32.sub (getNumParams functionType) 1)) paramTypes
  else
    let* unwrapped := unwrapSelfParameter functionType (isMethodFlag x) in
    let* self := selfSelected x in
    let* paramTypes :=
      if self then
        let* ty := getParamType functionType 0 in
        Done (paramTypes ++ [ty])
      else Done paramTypes in
    push_selected x unwrapped (range (getNumParams unwrapped)) paramTypes.

(** The lambda [addLoweredParamInfo] acting on the pair
    [(paramLoweredSizes, totalLoweredSize)]. *)
Definition addLoweredParamInfo (acc : list Z * Z) (type : Ty) : list Z * Z :=
  let paramLoweredSize := countNumFlattenedElementTypes type in
  (acc.1 ++ [paramLoweredSize], U32.add acc.2 paramLoweredSize).

(** The second loop of [getLowered], on the pair
    [(result, currentBitIndex)]. *)
Fixpoint set_lowered (indices : bitvec) (paramLoweredSizes : list Z)
    (idxs : list Z) (result : bitvec) (currentBitIndex : Z)
  : outcome bitvec :=
  match idxs with
  | [] => Done result
  | i :: rest =>
      let* paramLoweredSize :=
        at_index paramLoweredSizes i "idx < size()" in
      let* b := SmallBitVector.get indices i in
      let* result' :=
        if b then
          SmallBitVector.set_range result currentBitIndex
            (U32.add currentBitIndex paramLoweredSize)
        else Done result in
      set_lowered indices paramLoweredSizes rest result'
        (U32.add currentBitIndex paramLoweredSize)
  end.

Definition getLowered (x : t) (functionType : AnyFunctionType)
    (selfUncurried : bool) : outcome bitvec :=
  let* unwrapped :=
    if selfUncurried then Done functionType
    else unwrapSelfParameter functionType (isMethodFlag x) in
  let acc := fold_left addLoweredParamInfo (getParams unwrapped) ([], 0) in
  let* acc :=
    if isMethodFlag x && negb selfUncurried then
      let* ty := getParamType functionType 0 in
      Done (addLoweredParamInfo acc ty)
    else Done acc in
  let '(paramLoweredSizes, totalLoweredSize) := acc in
  let result := SmallBitVector.make totalLoweredSize false in
  set_lowered (indices x) paramLoweredSizes
    (range (SmallBitVector.size (indices x))) result 0.
End AutoDiffParameterIndices.

(** ** [AutoDiffAssociatedFunctionKind(StringRef)] *)

(** Equality of the contents of two [StringRef]s, as [StringSwitch::Case]
    tests it. *)
Fixpoint str_eqb (s1 s2 : list ascii) : bool :=
  match s1, s2 with
  | [], [] => true
  | c1 :: s1', c2 :: s2' => (c1 =? c2)%char && str_eqb s1' s2'
  | _, _ => false
  end.

(** The [llvm::StringSwitch] of the constructor: the first [Case] that
    matches gives the result, and the conversion of the switch to its result
    asserts that some case matched; the constructor then asserts that the
    result holds a value and takes it as the raw value. *)
Definition AutoDiffAssociatedFunctionKind_of_string (string : list ascii)
  : outcome AutoDiffAssociatedFunctionKind :=
  let* result :=
    if str_eqb string (list_ascii_of_string "jvp") then Done (Some JVP)
    else if str_eqb string (list_ascii_of_string "vjp") then Done (Some VJP)
    else Fatal "Fell off the end of a string-switch" in
  match result with
  | Some kind => Done kind
  | None => Fatal "Invalid string"
  end.

(** ** [Differentiability] *)

(** Modelled from the spec: the enumeration [AutoDiffMode] is declared in
    [swift/AST/AutoDiff.h]; the spec gives its variants as Forward and
    Reverse. *)
Inductive AutoDiffMode := Forward | Reverse.

Module Differentiability.
Record t := mk {
  mode : AutoDiffMode;
  wrtSelf : bool;
  parameterIndices : bitvec;
  resultIndices : bitvec
}.

(** [Differentiability(AutoDiffMode, AnyFunctionType * )]; [hasSelfParam]
    stands for [type->getExtInfo().hasSelfParam()], a bit of the function
    type that [AnyFunctionType] above does not carry. *)
Definition of_type (mode : AutoDiffMode) (hasSelfParam : bool)
    (type : AnyFunctionType) : outcome t :=
  let wrtSelf := hasSelfParam in
  let resultIndices := SmallBitVector.make 1 false in
  let* parameterIndices :=
    if wrtSelf then
      let* methodTy := castToAnyFunctionType (getResult type) in
      Done (SmallBitVector.make (getNumParams methodTy) false)
    else Done (SmallBitVector.make (getNumParams type) false) in
  let parameterIndices := SmallBitVector.set_all parameterIndices in
  let resultIndices := SmallBitVector.set_all resultIndices in
  Done (mk mode wrtSelf parameterIndices resultIndices).
End Differentiability.

(** ** Specification-side notions

    The definitions below follow the words of the specification; the theorems
    compare the functions above with them. *)

(** An index set as the data model has it: a method set has a receiver bit,
    and the size of the bit-vector is an [unsigned]. *)
Definition valid (x : AutoDiffParameterIndices.t) : Prop :=
  (AutoDiffParameterIndices.isMethodFlag x = true ->
   (1 <= length (AutoDiffParameterIndices.indices x))%nat)
  /\ Z.of_nat (length (AutoDiffParameterIndices.indices x)) < U32.modulus.

(** The textual encoding: ['S'] selected, ['U'] not selected. *)
Definition encode_flag (b : bool) : ascii :=
  if b then "S"%char else "U"%char.

Definition encode_marker (isMethod : bool) : ascii :=
  if isMethod then "M"%char else "F"%char.

Definition decode_flag (c : ascii) : option bool :=
  if (c =? "S")%char then Some true
  else if (c =? "U")%char then Some false
  else None.

Fixpoint decode_flags (cs : list ascii) : option bitvec :=
  match cs with
  | [] => Some []
  | c :: cs' =>
      match decode_flag c, decode_flags cs' with
      | Some b, Some bs => Some (b :: bs)
      | _, _ => None
      end
  end.

Definition decode_marker (c : ascii) : option bool :=
  if (c =? "M")%char then Some true
  else if (c =? "F")%char then Some false
  else None.

(** The decoder as the specification words it: a marker, then at least one
    flag; anything else is rejected. *)
Definition decode (s : list ascii) : option AutoDiffParameterIndices.t :=
  match s with
  | marker :: (_ :: _) as flags =>
      match decode_marker marker, decode_flags flags with
      | Some isMethod, Some bits =>
          Some (AutoDiffParameterIndices.mk bits isMethod)
      | _, _ => None
      end
  | _ => None
  end.

(** Strictly ascending lists of indices. *)
Fixpoint ascending (ps : list Z) : Prop :=
  match ps with
  | a :: (b :: _) as rest => a < b /\ ascending rest
  | _ => True
  end.

(** The flattened width of a type: a tuple contributes the sum of the widths
    of its elements, every other type contributes one. *)
Fixpoint flattenedWidth (type : Ty) : nat :=
  match type with
  | TupleType elements => sum_list (map flattenedWidth elements)
  | _ => 1%nat
  end.

(** A shape that is a single-receiver curried wrapper [(Self) -> inner]. *)
Definition asReceiverWrapper (functionType : AnyFunctionType)
  : option (Ty * AnyFunctionType) :=
  match getParams functionType, getResult functionType with
  | [self], FunctionType params result => Some (self, mkFn params result)
  | _, _ => None
  end.

(** The shape with the receiver stripped. *)
Definition strippedShape (functionType : AnyFunctionType) (isMethod : bool)
  : option AnyFunctionType :=
  if isMethod then option_map snd (asReceiverWrapper functionType)
  else Some functionType.

(** The logical parameters that [getLowered] walks: the unwrapped shape's
    parameters, plus the receiver appended last when the set is a method set
    and the receiver has not been uncurried. *)
Definition logicalParameters (functionType : AnyFunctionType)
    (isMethod selfUncurried : bool) : option (list Ty) :=
  if selfUncurried then Some (getParams functionType)
  else if isMethod then
    match asReceiverWrapper functionType with
    | Some (self, inner) => Some (getParams inner ++ [self])
    | None => None
    end
  else Some (getParams functionType).


(** The lowered bit-vector as the specification words it: walking the logical
    parameters in order, a parameter of width [w] contributes [w] copies of
    its high-level bit (unset when the set has no bit for it). *)
Fixpoint loweredBits (widths : list nat) (bits : bitvec) : bitvec :=
  match widths with
  | [] => []
  | w :: widths' =>
      replicate w (default false (head bits)) ++ loweredBits widths' (tail bits)
  end.

(** The types of [params] whose bit is set, in ascending position order. *)
Definition selectedTypes (params : list Ty) (bits : bitvec) : list Ty :=
  omap (fun p : Ty * bool => if p.2 then Some p.1 else None) (zip params bits).


(** The name of a kind in the textual form the constructor reads. *)
Definition kind_name (kind : AutoDiffAssociatedFunctionKind) : list ascii :=
  match kind with
  | JVP => list_ascii_of_string "jvp"
  | VJP => list_ascii_of_string "vjp"
  end.

(** A type that is not a tuple: a leaf of the flattening. *)
Definition isLeaf (type : Ty) : Prop :=
  match type with
  | TupleType _ => False
  | _ => True
  end.

(** ** Facts on outcomes, 32-bit arithmetic and checked access *)

Lemma wrap_small z : 0 <= z < U32.modulus -> U32.wrap z = z.
Proof. intros H. unfold U32.wrap. now apply Z.mod_small. Qed.

Lemma modulus_eq : U32.modulus = 4294967296.
Proof. reflexivity. Qed.

Lemma at_index_Done {A} (l : list A) (n : nat) (a : A) msg :
  l !! n = Some a -> at_index l (Z.of_nat n) msg = Done a.
Proof.
  intros H. unfold at_index.
  pose proof (lookup_lt_Some _ _ _ H) as Hlt.
  rewrite Nat2Z.id, H.
  replace ((0 <=? Z.of_nat n) && (Z.of_nat n <? Z.of_nat (length l)))
    with true; [done|].
  symmetry. apply andb_true_iff. split; [apply Z.leb_le|apply Z.ltb_lt]; lia.
Qed.

(** ** Facts on the bit-vector model *)

Section BitVectorFacts.
Implicit Types (v w : bitvec) (i j : nat).

Lemma bit_dec v i : {bit v i} + {~ bit v i}.
Proof. unfold bit. destruct (v !! i) as [[]|]; (by left) || (right; congruence). Qed.

Lemma size_make s t : 0 <= s -> SmallBitVector.size (SmallBitVector.make s t) = s.
Proof.
  intros H. unfold SmallBitVector.size, SmallBitVector.make.
  rewrite length_replicate. lia.
Qed.

Lemma length_resize v n : length (SmallBitVector.resize v n) = Z.to_nat n.
Proof.
  unfold SmallBitVector.resize.
  rewrite length_app, length_take, length_replicate. lia.
Qed.

Lemma lookup_resize v n i :
  SmallBitVector.resize v n !! i =
  if decide (i < Z.to_nat n)%nat then Some (default false (v !! i)) else None.
Proof.
  unfold SmallBitVector.resize. case_decide as Hi.
  - destruct (decide (i < length v)%nat) as [Hv|Hv].
    + rewrite lookup_app_l by (rewrite length_take; lia).
      rewrite lookup_take_lt by lia.
      destruct (lookup_lt_is_Some_2 v i Hv) as [b ->]. done.
    + rewrite lookup_app_r by (rewrite length_take; lia).
      rewrite length_take, lookup_replicate_2 by lia.
      rewrite (lookup_ge_None_2 v i) by lia. done.
  - apply lookup_ge_None_2.
    rewrite length_app, length_take, length_replicate. lia.
Qed.

Lemma bit_resize v n i :
  bit (SmallBitVector.resize v n) i <-> (i < Z.to_nat n)%nat /\ bit v i.
Proof.
  unfold bit. rewrite lookup_resize. case_decide as Hi.
  - destruct (v !! i) as [[]|]; simpl; split; intros; intuition congruence.
  - split; [discriminate|]. intros [? _]. lia.
Qed.

Lemma bit_make_false s i : ~ bit (SmallBitVector.make s false) i.
Proof.
  unfold bit, SmallBitVector.make. intros H.
  apply lookup_replicate in H. destruct H as [H _]. discriminate.
Qed.

Lemma bit_xor_assign v w i :
  bit (SmallBitVector.xor_assign v w) i <-> ~ (bit v i <-> bit w i).
Proof.
  unfold SmallBitVector.xor_assign, SmallBitVector.size.
  set (n := Z.max _ _).
  assert (Hn : Z.to_nat n = Nat.max (length v) (length w)) by lia.
  unfold bit at 1. rewrite lookup_zip_with, !lookup_resize, Hn.
  case_decide as Hi; simpl.
  - unfold bit.
    destruct (v !! i) as [[]|], (w !! i) as [[]|]; simpl;
      split; intros; try tauto; try congruence; try (intuition congruence).
  - unfold bit.
    rewrite (lookup_ge_None_2 v i), (lookup_ge_None_2 w i) by lia.
    split; [discriminate|]. intros H. exfalso. apply H. tauto.
Qed.

Lemma none_spec v : SmallBitVector.none v = true <-> forall i, ~ bit v i.
Proof.
  unfold SmallBitVector.none, bit. induction v as [|b v IH]; simpl.
  - split; [|done]. intros _ i. rewrite lookup_nil. discriminate.
  - rewrite andb_true_iff, IH. split.
    + intros [Hb Hv] [|i]; simpl; [destruct b; simpl in *; congruence|apply Hv].
    + intros H. split.
      * specialize (H 0%nat). destruct b; simpl in *; congruence.
      * intros i. apply (H (S i)).
Qed.

End BitVectorFacts.

(** ** Equality of [SILAutoDiffIndices] *)

Lemma bit_xor_into_zero (s : Z) (v : bitvec) (i : nat) :
  bit (SmallBitVector.xor_assign (SmallBitVector.make s false) v) i <-> bit v i.
Proof.
  rewrite bit_xor_assign. pose proof (bit_make_false s i) as Hz.
  destruct (bit_dec v i); tauto.
Qed.

Lemma eqb_buffer_none (s : Z) (v w : bitvec) :
  SmallBitVector.none
    (SmallBitVector.xor_assign
       (SmallBitVector.xor_assign (SmallBitVector.make s false) v) w) = true
  <-> forall i, bit v i <-> bit w i.
Proof.
  rewrite none_spec. split; intros H i; specialize (H i).
  - rewrite bit_xor_assign, bit_xor_into_zero in H.
    destruct (bit_dec v i), (bit_dec w i); tauto.
  - rewrite bit_xor_assign, bit_xor_into_zero. tauto.
Qed.

(** C6. Two [SILAutoDiffIndices] values are equal under [operator==] exactly
    when their [source] fields are equal and their parameter bit-vectors have
    the same set-bit positions, whatever the lengths of the vectors; so the
    bits {0,2} in a vector of length 3 equal the bits {0,2} in one of
    length 5. *)
Theorem SILAutoDiffIndices_eqb_spec :
  (forall a b : SILAutoDiffIndices.t,
     SILAutoDiffIndices.eqb a b = true <->
     SILAutoDiffIndices.source a = SILAutoDiffIndices.source b
     /\ forall i : nat,
          bit (SILAutoDiffIndices.parameters a) i
          <-> bit (SILAutoDiffIndices.parameters b) i)
  /\ (forall source : Z,
        SILAutoDiffIndices.eqb
          (SILAutoDiffIndices.mk source [true; false; true])
          (SILAutoDiffIndices.mk source [true; false; true; false; false])
        = true).
Proof.
  assert (Hiff : forall a b : SILAutoDiffIndices.t,
     SILAutoDiffIndices.eqb a b = true <->
     SILAutoDiffIndices.source a = SILAutoDiffIndices.source b
     /\ forall i : nat,
          bit (SILAutoDiffIndices.parameters a) i
          <-> bit (SILAutoDiffIndices.parameters b) i).
  { intros [sa pa] [sb pb]. unfold SILAutoDiffIndices.eqb.
    cbn [SILAutoDiffIndices.source SILAutoDiffIndices.parameters].
    destruct (Z.eqb_spec sa sb) as [->|Hne]; cbn [negb].
    - rewrite eqb_buffer_none. tauto.
    - split; [discriminate|]. intros [? _]. contradiction. }
  split; [exact Hiff|].
  intros source. apply Hiff. split; [reflexivity|].
  intros [|[|[|[|[|i]]]]]; unfold bit; cbn; rewrite ?lookup_nil.
  all: try (split; congruence).
  destruct i; split; discriminate.
Qed.

(** ** Associated-function addressing *)

Section Addressing.
Import autodiff.

Lemma getNum_mod (order : Z) :
  getNumAutoDiffAssociatedFunctions order = (order * 2) mod 2 ^ 32.
Proof. reflexivity. Qed.

Lemma getOffset_mod (order : Z) (kind : AutoDiffAssociatedFunctionKind) :
  getOffsetForAutoDiffAssociatedFunction order kind
  = ((order - 1) * (order * 2) + rawValue kind) mod 2 ^ 32.
Proof.
  unfold getOffsetForAutoDiffAssociatedFunction,
    getNumAutoDiffAssociatedFunctions, U32.add, U32.mul, U32.sub, U32.wrap,
    U32.modulus.
  rewrite <- Z.mul_mod by lia. now rewrite Z.add_mod_idemp_l by lia.
Qed.

(** C7 as stated fails: from order 46342 on, the product
    [(order - 1) * (order * 2)] no longer fits an [unsigned]. *)
Lemma addressing_overflow_counterexample :
  1 <= 46342
  /\ getOffsetForAutoDiffAssociatedFunction 46342 JVP = 101948
  /\ (46342 - 1) * getNumAutoDiffAssociatedFunctions 46342 + rawValue JVP
     = 4295069244
  /\ getOffsetForAutoDiffAssociatedFunction 46342 JVP
     <> (46342 - 1) * getNumAutoDiffAssociatedFunctions 46342 + rawValue JVP.
Proof. repeat split; try reflexivity; [lia|]. vm_compute. discriminate. Qed.

(** C7 (amended). For every order [>= 1] that is an [unsigned] and every
    kind, the number of associated functions and the offset are the values
    [order * 2] and [(order - 1) * (order * 2) + kind.rawValue] reduced
    modulo [2^32]; they are exactly these values whenever
    [(order - 1) * (order * 2) + 1] fits an [unsigned] (order at most 46341).
    The raw values are JVP = 0 and VJP = 1, and
    [numAssociatedFunctions(1) = 2], [offset(1, JVP) = 0],
    [offset(1, VJP) = 1], [offset(2, JVP) = 4]. *)
Theorem associated_function_addressing
    (order : Z) (kind : AutoDiffAssociatedFunctionKind) :
  1 <= order < U32.modulus ->
  (getNumAutoDiffAssociatedFunctions order = (order * 2) mod 2 ^ 32
   /\ getOffsetForAutoDiffAssociatedFunction order kind
      = ((order - 1) * (order * 2) + rawValue kind) mod 2 ^ 32)
  /\ ((order - 1) * (order * 2) + 1 < U32.modulus ->
      getNumAutoDiffAssociatedFunctions order = order * 2
      /\ getOffsetForAutoDiffAssociatedFunction order kind
         = (order - 1) * getNumAutoDiffAssociatedFunctions order
           + rawValue kind)
  /\ (rawValue JVP = 0 /\ rawValue VJP = 1
      /\ getNumAutoDiffAssociatedFunctions 1 = 2
      /\ getOffsetForAutoDiffAssociatedFunction 1 JVP = 0
      /\ getOffsetForAutoDiffAssociatedFunction 1 VJP = 1
      /\ getOffsetForAutoDiffAssociatedFunction 2 JVP = 4).
Proof.
  intros Horder. split; [split; [apply getNum_mod|apply getOffset_mod]|].
  split; [|repeat split].
  intros Hfit. rewrite modulus_eq in *.
  assert (Hnum : getNumAutoDiffAssociatedFunctions order = order * 2).
  { rewrite getNum_mod. apply Z.mod_small. nia. }
  split; [exact Hnum|].
  rewrite Hnum, getOffset_mod. apply Z.mod_small.
  destruct kind; simpl; nia.
Qed.

Lemma associated_function_addressing_witness :
  1 <= 3 < U32.modulus
  /\ (3 - 1) * (3 * 2) + 1 < U32.modulus
  /\ getNumAutoDiffAssociatedFunctions 3 = 3 * 2
  /\ getOffsetForAutoDiffAssociatedFunction 3 VJP
     = (3 - 1) * getNumAutoDiffAssociatedFunctions 3 + rawValue VJP.
Proof.
  assert (H1 : 1 <= 3 < U32.modulus) by (vm_compute; split; discriminate || reflexivity).
  assert (H2 : (3 - 1) * (3 * 2) + 1 < U32.modulus) by reflexivity.
  split; [exact H1|]. split; [exact H2|].
  exact (proj1 (proj2 (associated_function_addressing 3 VJP H1)) H2).
Defined.

End Addressing.

(** ** The constructor of [SILAutoDiffIndices] *)

Section IndicesConstructor.
Import SILAutoDiffIndices.

Lemma to_int_small p : 0 <= p < 2 ^ 31 -> U32.to_int p = p.
Proof.
  intros H. unfold U32.to_int.
  destruct (Z.ltb_spec p (2 ^ 31)); [done|lia].
Qed.

Lemma to_int_large p : 2 ^ 31 <= p < U32.modulus -> U32.to_int p < 0.
Proof.
  rewrite modulus_eq. intros H. unfold U32.to_int.
  destruct (Z.ltb_spec p (2 ^ 31)); [lia|]. rewrite modulus_eq. lia.
Qed.

Lemma ascending_cons a l :
  ascending (a :: l) <-> ascending l /\ match l with [] => True | b :: _ => a < b end.
Proof. destruct l; simpl; tauto. Qed.

Lemma ascending_head_lt a l q : ascending (a :: l) -> q ∈ l -> a < q.
Proof.
  revert a. induction l as [|b l IH]; intros a Hasc Hq.
  - inversion Hq.
  - destruct Hasc as [Hab Hasc]. apply elem_of_cons in Hq as [->|Hq]; [done|].
    specialize (IH b Hasc Hq). lia.
Qed.

Lemma fold_left_max_ge (l : list Z) (p : Z) :
  p <= fold_left Z.max l p /\ forall q, q ∈ l -> q <= fold_left Z.max l p.
Proof.
  revert p. induction l as [|a l IH]; intros p; simpl.
  - split; [lia|]. intros q Hq. inversion Hq.
  - destruct (IH (Z.max p a)) as [H1 H2]. split; [lia|].
    intros q Hq. apply elem_of_cons in Hq as [->|Hq]; [lia|auto].
Qed.

Lemma fold_left_max_elem (l : list Z) (p : Z) :
  fold_left Z.max l p ∈ p :: l.
Proof.
  revert p. induction l as [|a l IH]; intros p; simpl.
  - apply list_elem_of_singleton. done.
  - specialize (IH (Z.max p a)).
    apply elem_of_cons in IH as [Heq|Hin].
    + rewrite Heq. destruct (Z.max_spec p a) as [[_ ->]|[_ ->]].
      * apply elem_of_cons. right. apply elem_of_cons. by left.
      * apply elem_of_cons. by left.
    + apply elem_of_cons. right. apply elem_of_cons. by right.
Qed.

Lemma set_in_bounds (v : bitvec) (p : Z) :
  0 <= p < SmallBitVector.size v ->
  SmallBitVector.set v p = Done (<[Z.to_nat p := true]> v).
Proof.
  intros H. unfold SmallBitVector.set, SmallBitVector.in_bounds.
  destruct (Z.leb_spec 0 p); [|lia].
  destruct (Z.ltb_spec p (SmallBitVector.size v)); [done|lia].
Qed.

Lemma bit_insert (v : bitvec) (n i : nat) :
  (n < length v)%nat -> bit (<[n := true]> v) i <-> bit v i \/ i = n.
Proof.
  intros Hn. unfold bit. destruct (decide (i = n)) as [->|Hne].
  - rewrite list_lookup_insert_eq by done. tauto.
  - rewrite list_lookup_insert_ne by done. tauto.
Qed.

(** When the indices fit an [int], ascend from [last] and are within the
    vector, the loop returns and sets exactly them. *)
Lemma set_ascending_returns (ps : list Z) (last : Z) (bits : bitvec) :
  -1 <= last ->
  (forall p, p ∈ ps -> last < p < 2 ^ 31 /\ p < SmallBitVector.size bits) ->
  ascending ps ->
  exists bits',
    set_ascending ps last bits = Done bits'
    /\ length bits' = length bits
    /\ forall i, bit bits' i <-> bit bits i \/ Z.of_nat i ∈ ps.
Proof.
  revert last bits. induction ps as [|p rest IH]; intros last bits Hlast Hps Hasc.
  - exists bits. repeat split; [tauto|]. intros [?|H]; [done|inversion H].
  - destruct (Hps p) as [Hp Hsz]; [by left|].
    cbn [set_ascending]. rewrite to_int_small by lia.
    destruct (Z.gtb_spec p last) as [_|]; [|lia].
    rewrite set_in_bounds by lia. cbn [bind].
    destruct (IH p (<[Z.to_nat p := true]> bits)) as (bits' & Hrun & Hlen & Hbits).
    + lia.
    + intros q Hq. pose proof (ascending_head_lt _ _ _ Hasc Hq).
      destruct (Hps q) as [? ?]; [by right|].
      unfold SmallBitVector.size in *. rewrite length_insert. lia.
    + apply ascending_cons in Hasc. tauto.
    + exists bits'. split; [done|]. rewrite Hlen, length_insert. split; [done|].
      intros i. rewrite Hbits, bit_insert
        by (unfold SmallBitVector.size in Hsz; lia).
      rewrite elem_of_cons. split; intros H; intuition (subst; auto; try lia).
Qed.

(** A run of the loop that returns has seen indices that fit an [int] and
    ascend strictly from [last]. *)
Lemma set_ascending_returns_inv (ps : list Z) (last : Z) (bits : bitvec) :
  -1 <= last ->
  Forall U32.in_range ps ->
  returns (set_ascending ps last bits) ->
  ascending ps /\ forall p, p ∈ ps -> last < p < 2 ^ 31.
Proof.
  revert last bits. induction ps as [|p rest IH]; intros last bits Hlast Hr Hret.
  - split; [done|]. intros p Hp. inversion Hp.
  - apply Forall_cons in Hr as [Hp Hr]. destruct Hret as [out Hout].
    cbn [set_ascending] in Hout.
    destruct (Z.gtb_spec (U32.to_int p) last) as [Hgt|]; [|discriminate].
    assert (Hp31 : 0 <= p < 2 ^ 31).
    { destruct (Z.lt_ge_cases p (2 ^ 31)); [unfold U32.in_range in Hp; lia|].
      pose proof (to_int_large p). unfold U32.in_range in Hp. lia. }
    rewrite to_int_small in Hout, Hgt by done.
    destruct (SmallBitVector.set bits p) as [bits'|] eqn:Hset; [|discriminate].
    cbn [bind] in Hout.
    destruct (IH p bits') as [Hasc Hrest]; [lia|done|by exists out|].
    split.
    + apply ascending_cons. split; [done|].
      destruct rest as [|q rest]; [done|].
      destruct (Hrest q); [by left|lia].
    + intros q Hq. apply elem_of_cons in Hq as [->|Hq]; [lia|].
      specialize (Hrest q Hq). lia.
Qed.

(** With indices that fit an [int] and are within the vector, the only way
    for the loop to die is the ascending-order assertion. *)
Lemma set_ascending_assert (ps : list Z) (last : Z) (bits : bitvec) :
  (forall p, p ∈ ps -> 0 <= p < 2 ^ 31 /\ p < SmallBitVector.size bits) ->
  ~ (ascending ps /\ forall p, p ∈ ps -> last < p) ->
  set_ascending ps last bits = Fatal "Parameter indices must be ascending".
Proof.
  revert last bits. induction ps as [|p rest IH]; intros last bits Hps Hnot.
  - exfalso. apply Hnot. split; [done|]. intros p Hp. inversion Hp.
  - destruct (Hps p) as [Hp Hsz]; [by left|].
    cbn [set_ascending]. rewrite to_int_small by lia.
    destruct (Z.gtb_spec p last) as [Hgt|]; [|done].
    rewrite set_in_bounds by lia. cbn [bind]. apply IH.
    + intros q Hq. destruct (Hps q) as [? ?]; [by right|].
      unfold SmallBitVector.size in *. rewrite length_insert. lia.
    + intros [Hasc Hrest]. apply Hnot. split.
      * apply ascending_cons. split; [done|].
        destruct rest as [|q rest]; [done|]. apply Hrest. by left.
      * intros q Hq. apply elem_of_cons in Hq as [->|Hq]; [lia|].
        specialize (Hrest q Hq). lia.
Qed.

Lemma outcome_cases {A} (m : outcome A) : returns m \/ aborts m.
Proof. destruct m as [a|msg]; [left; by exists a|right; by exists msg]. Qed.

End IndicesConstructor.

(** C5 as stated fails: the one-element list [[2147483648]] is strictly
    ascending and made of [unsigned] values, yet the constructor dies on its
    ascending-order assertion, because [(int)2147483648] is negative. *)
Lemma SILAutoDiffIndices_create_counterexample :
  ascending [2147483648]
  /\ Forall U32.in_range [2147483648]
  /\ SILAutoDiffIndices.create 0 [2147483648]
     = Fatal "Parameter indices must be ascending"
  /\ ~ returns (SILAutoDiffIndices.create 0 [2147483648]).
Proof.
  assert (Hrun : SILAutoDiffIndices.create 0 [2147483648]
                 = Fatal "Parameter indices must be ascending").
  { unfold SILAutoDiffIndices.create.
    cbn [SILAutoDiffIndices.set_ascending].
    replace (U32.to_int 2147483648 >? -1) with false by reflexivity.
    reflexivity. }
  split; [exact I|]. split.
  - apply Forall_cons. split; [|by apply Forall_nil].
    unfold U32.in_range. rewrite modulus_eq. lia.
  - split; [exact Hrun|]. rewrite Hrun. intros [a Ha]. discriminate.
Qed.

(** C5 (amended). The constructor requires the list of parameter indices to
    be strictly ascending: on a list of [unsigned] values that is not, it dies
    (and when the indices fit an [int], it dies on the assertion
    "Parameter indices must be ascending", as it does for [[2; 1]]).  On a
    non-empty strictly ascending list of indices below [2^31] it returns, with
    the given [source] and a bit-vector of length [max(index) + 1] in which
    exactly the given indices are set. *)
Theorem SILAutoDiffIndices_create_spec :
  (forall (source : Z) (ps : list Z),
     Forall U32.in_range ps ->
     (~ ascending ps -> aborts (SILAutoDiffIndices.create source ps))
     /\ (Forall (fun p => p < 2 ^ 31) ps ->
         (~ ascending ps ->
          SILAutoDiffIndices.create source ps
          = Fatal "Parameter indices must be ascending")
         /\ (ascending ps -> ps <> [] ->
             exists (bits : bitvec) (m : Z),
               SILAutoDiffIndices.create source ps
               = Done (SILAutoDiffIndices.mk source bits)
               /\ m ∈ ps /\ (forall p, p ∈ ps -> p <= m)
               /\ Z.of_nat (length bits) = m + 1
               /\ forall i : nat, bit bits i <-> Z.of_nat i ∈ ps)))
  /\ (forall source : Z,
        SILAutoDiffIndices.create source [2; 1]
        = Fatal "Parameter indices must be ascending").
Proof.
  split; [|reflexivity].
  intros source ps Hrange. split.
  - (* any violation is fatal *)
    intros Hnot. destruct ps as [|p rest]; [by destruct Hnot|].
    unfold SILAutoDiffIndices.create.
    set (bits := SmallBitVector.resize _ _).
    destruct (outcome_cases (SILAutoDiffIndices.set_ascending (p :: rest) (-1) bits))
      as [Hret|[msg Hmsg]].
    + apply set_ascending_returns_inv in Hret as [Hasc _]; [done|lia|done].
    + exists msg. by rewrite Hmsg.
  - intros H31.
    assert (Hps : forall p, p ∈ ps -> 0 <= p < 2 ^ 31).
    { intros p Hp. rewrite Forall_forall in Hrange, H31.
      specialize (Hrange p Hp). specialize (H31 p Hp).
      unfold U32.in_range in Hrange. lia. }
    destruct ps as [|p rest].
    { split; [intros Hnot; by destruct Hnot|]. intros _ Hne. by destruct Hne. }
    unfold SILAutoDiffIndices.create.
    set (m := fold_left Z.max rest p).
    destruct (fold_left_max_ge rest p) as [Hpm Hrestm]. fold m in Hpm, Hrestm.
    pose proof (fold_left_max_elem rest p) as Hm. fold m in Hm.
    assert (Hle : forall q, q ∈ p :: rest -> q <= m).
    { intros q Hq. apply elem_of_cons in Hq as [->|Hq]; auto. }
    assert (Hm31 : 0 <= m < 2 ^ 31) by (apply Hps; exact Hm).
    assert (Hwrap : U32.add m 1 = m + 1).
    { unfold U32.add. apply wrap_small. rewrite modulus_eq. lia. }
    rewrite Hwrap.
    set (bits := SmallBitVector.resize [] (m + 1)).
    assert (Hsize : SmallBitVector.size bits = m + 1).
    { unfold SmallBitVector.size, bits. rewrite length_resize. lia. }
    assert (Hzero : forall i, ~ bit bits i).
    { intros i Hi. apply bit_resize in Hi as [_ Hi].
      unfold bit in Hi. by rewrite lookup_nil in Hi. }
    split.
    + intros Hnot.
      rewrite (set_ascending_assert (p :: rest) (-1) bits); [done| |].
      * intros q Hq. specialize (Hps q Hq). specialize (Hle q Hq). lia.
      * intros [Hasc _]. contradiction.
    + intros Hasc _.
      destruct (set_ascending_returns (p :: rest) (-1) bits)
        as (bits' & Hrun & Hlen & Hbits); [lia| |done|].
      * intros q Hq. specialize (Hps q Hq). specialize (Hle q Hq). lia.
      * exists bits', m. rewrite Hrun. cbn [bind].
        split; [done|]. split; [done|]. split; [done|]. split.
        -- rewrite Hlen. exact Hsize.
        -- intros i. rewrite Hbits. specialize (Hzero i). tauto.
Qed.

Lemma SILAutoDiffIndices_create_spec_witness :
  Forall U32.in_range [0; 2]
  /\ Forall (fun p => p < 2 ^ 31) [0; 2]
  /\ ascending [0; 2]
  /\ [0; 2] <> ([] : list Z)
  /\ exists (bits : bitvec) (m : Z),
       SILAutoDiffIndices.create 7 [0; 2]
       = Done (SILAutoDiffIndices.mk 7 bits)
       /\ m ∈ [0; 2] /\ (forall p, p ∈ [0; 2] -> p <= m)
       /\ Z.of_nat (length bits) = m + 1
       /\ forall i : nat, bit bits i <-> Z.of_nat i ∈ [0; 2].
Proof.
  assert (H1 : Forall U32.in_range [0; 2]).
  { repeat (apply Forall_cons; split); try (by apply Forall_nil);
      unfold U32.in_range; rewrite modulus_eq; lia. }
  assert (H2 : Forall (fun p => p < 2 ^ 31) [0; 2]).
  { repeat (apply Forall_cons; split); try (by apply Forall_nil); lia. }
  assert (H3 : ascending [0; 2]) by (simpl; split; [reflexivity|exact I]).
  assert (H4 : [0; 2] <> ([] : list Z)) by discriminate.
  split; [exact H1|]. split; [exact H2|]. split; [exact H3|]. split; [exact H4|].
  exact (proj2 (proj2 (proj1 SILAutoDiffIndices_create_spec 7 [0; 2] H1) H2) H3 H4).
Defined.

(** ** The textual encoding of [AutoDiffParameterIndices] *)

Section Encoding.
Import AutoDiffParameterIndices.

Lemma get_lookup (v : bitvec) (n : nat) (b : bool) :
  v !! n = Some b -> SmallBitVector.get v (Z.of_nat n) = Done b.
Proof. apply at_index_Done. Qed.

Lemma range_S (a : Z) (n : nat) :
  seqZ a (Z.of_nat (S n)) = a :: seqZ (a + 1) (Z.of_nat n).
Proof.
  rewrite seqZ_cons by lia. f_equal. f_equal; lia.
Qed.

(** The loop of [getString] appends the flag of every remaining bit. *)
Lemma append_flags_spec (rest pre : bitvec) (result : list ascii) :
  append_flags (pre ++ rest)
    (seqZ (Z.of_nat (length pre)) (Z.of_nat (length rest))) result
  = Done (result ++ map encode_flag rest).
Proof.
  revert pre result. induction rest as [|b rest IH]; intros pre result.
  - simpl. by rewrite app_nil_r.
  - cbn [length]. rewrite range_S. cbn [append_flags].
    rewrite (get_lookup _ _ b) by apply list_lookup_middle, eq_refl.
    cbn [bind].
    replace (pre ++ b :: rest) with ((pre ++ [b]) ++ rest)
      by (by rewrite <- app_assoc).
    replace (Z.of_nat (length pre) + 1) with (Z.of_nat (length (pre ++ [b])))
      by (rewrite length_app; simpl; lia).
    rewrite IH. simpl. by rewrite <- app_assoc.
Qed.

Lemma getString_spec (x : t) :
  getString x
  = Done (encode_marker (isMethodFlag x) :: map encode_flag (indices x)).
Proof.
  unfold getString, range, SmallBitVector.size.
  exact (append_flags_spec (indices x) [] _).
Qed.

Lemma decode_encode_flag (b : bool) : decode_flag (encode_flag b) = Some b.
Proof. by destruct b. Qed.

Lemma decode_encode_flags (bits : bitvec) :
  decode_flags (map encode_flag bits) = Some bits.
Proof.
  induction bits as [|b bits IH]; [done|].
  simpl. by rewrite decode_encode_flag, IH.
Qed.

Lemma decode_encode_marker (m : bool) : decode_marker (encode_marker m) = Some m.
Proof. by destruct m. Qed.

(** The loop of the decoder, started after [pre] decoded flags, decodes the
    remaining characters [cs]. *)
Lemma parse_flags_spec (cs seen : list ascii) (pre : bitvec) :
  length seen = S (length pre) ->
  Z.of_nat (length seen + length cs) <= U32.modulus ->
  parse_flags (seen ++ cs)
    (seqZ (Z.of_nat (length pre)) (Z.of_nat (length cs)))
    (pre ++ replicate (length cs) false)
  = Done (option_map (app pre) (decode_flags cs)).
Proof.
  revert seen pre. induction cs as [|c cs IH]; intros seen pre Hseen Hfit.
  - simpl. by rewrite app_nil_r.
  - cbn [length] in *. rewrite range_S. cbn [parse_flags].
    assert (Hidx : U32.add (Z.of_nat (length pre)) 1 = Z.of_nat (length seen)).
    { unfold U32.add. rewrite wrap_small by lia. lia. }
    rewrite Hidx, (at_index_Done _ _ c) by apply list_lookup_middle, eq_refl.
    cbn [bind].
    assert (Hnext : forall b : bool,
      parse_flags (seen ++ c :: cs)
        (seqZ (Z.of_nat (length pre) + 1) (Z.of_nat (length cs)))
        (pre ++ b :: replicate (length cs) false)
      = Done (option_map (app (pre ++ [b])) (decode_flags cs))).
    { intros b.
      replace (seen ++ c :: cs) with ((seen ++ [c]) ++ cs)
        by (by rewrite <- app_assoc).
      replace (pre ++ b :: replicate (length cs) false)
        with ((pre ++ [b]) ++ replicate (length cs) false)
        by (by rewrite <- app_assoc).
      replace (Z.of_nat (length pre) + 1) with (Z.of_nat (length (pre ++ [b])))
        by (rewrite length_app; simpl; lia).
      apply IH; rewrite !length_app; simpl; lia. }
    cbn [decode_flags]. unfold decode_flag.
    destruct (c =? "S")%char.
    + rewrite set_in_bounds
        by (unfold SmallBitVector.size; rewrite length_app; simpl; lia).
      cbn [bind]. rewrite Nat2Z.id.
      replace (<[length pre:=true]> (pre ++ replicate (S (length cs)) false))
        with (pre ++ true :: replicate (length cs) false).
      * rewrite Hnext. destruct (decode_flags cs); simpl; [|done].
        by rewrite <- app_assoc.
      * symmetry. rewrite <- (Nat.add_0_r (length pre)) at 1.
        by rewrite insert_app_r.
    + destruct (c =? "U")%char; cbn [negb]; [|done].
      change (replicate (S (length cs)) false)
        with (false :: replicate (length cs) false).
      rewrite Hnext. destruct (decode_flags cs); simpl; [|done].
      by rewrite <- app_assoc.
Qed.

(** The decoder computes [decode] on every string whose length fits an
    [unsigned]. *)
Lemma create_of_string_spec (s : list ascii) :
  Z.of_nat (length s) <= U32.modulus ->
  create_of_string s = Done (decode s).
Proof.
  intros Hfit. unfold create_of_string.
  destruct (Z.ltb_spec (Z.of_nat (length s)) 2) as [Hshort|Hlong].
  { destruct s as [|c0 [|c1 s]]; simpl in *; [done|done|lia]. }
  destruct s as [|c0 [|c1 cs]]; simpl in Hlong; [lia|lia|].
  rewrite (at_index_Done _ 0 c0) by done. cbn [bind].
  rewrite wrap_small by (cbn [length] in *; lia).
  unfold range. rewrite size_make by (cbn [length]; lia).
  unfold SmallBitVector.make.
  replace (Z.of_nat (length (c0 :: c1 :: cs)) - 1)
    with (Z.of_nat (length (c1 :: cs))) by (cbn [length]; lia).
  rewrite Nat2Z.id.
  assert (Hloop :
    parse_flags (c0 :: c1 :: cs) (seqZ 0 (Z.of_nat (length (c1 :: cs))))
      (replicate (length (c1 :: cs)) false)
    = Done (decode_flags (c1 :: cs))).
  { transitivity (Done (option_map (app []) (decode_flags (c1 :: cs)))).
    - apply (parse_flags_spec (c1 :: cs) [c0] [] eq_refl).
      cbn [length] in *. lia.
    - by destruct (decode_flags (c1 :: cs)). }
  change (decode (c0 :: c1 :: cs)) with
    (match decode_marker c0, decode_flags (c1 :: cs) with
     | Some isMethod, Some bits => Some (mk bits isMethod)
     | _, _ => None
     end).
  unfold decode_marker.
  destruct (c0 =? "M")%char.
  - rewrite Hloop. cbn [bind]. by destruct (decode_flags (c1 :: cs)).
  - destruct (c0 =? "F")%char; cbn [negb]; [|done].
    rewrite Hloop. cbn [bind]. by destruct (decode_flags (c1 :: cs)).
Qed.

End Encoding.

Section Decoding.
Import AutoDiffParameterIndices.









End Decoding.

(** C1 as stated fails at [N = 0]: the empty non-method set is printed as the
    one-character string ["F"], which the decoder rejects. *)
Lemma roundtrip_empty_counterexample :
  (length (AutoDiffParameterIndices.indices
             (AutoDiffParameterIndices.mk [] false)) <= 6)%nat
  /\ AutoDiffParameterIndices.getString (AutoDiffParameterIndices.mk [] false)
     = Done ["F"%char]
  /\ AutoDiffParameterIndices.create_of_string ["F"%char] = Done None
  /\ AutoDiffParameterIndices.create_of_string ["F"%char]
     <> Done (Some (AutoDiffParameterIndices.mk [] false)).
Proof. repeat split; [simpl; lia|discriminate]. Qed.

(** C1 (amended). For every [isMethod] flag and every subset of an [N]-bit
    field with [N >= 1] (so for [N = 1..6]; [N] an [unsigned]), [getString]
    returns a string that [create] parses back to the very same set; for
    [N = 0] the string is the bare marker and the decoder rejects it. *)
Theorem getString_create_roundtrip (x : AutoDiffParameterIndices.t) :
  Z.of_nat (length (AutoDiffParameterIndices.indices x)) < U32.modulus ->
  exists s : list ascii,
    AutoDiffParameterIndices.getString x = Done s
    /\ AutoDiffParameterIndices.create_of_string s
       = Done (match AutoDiffParameterIndices.indices x with
               | [] => None
               | _ :: _ => Some x
               end).
Proof.
  intros Hfit. destruct x as [bits m]. cbn [AutoDiffParameterIndices.indices] in *.
  eexists. split; [apply getString_spec|].
  cbn [AutoDiffParameterIndices.indices AutoDiffParameterIndices.isMethodFlag].
  rewrite create_of_string_spec by (simpl; rewrite length_map; lia).
  f_equal. destruct bits as [|b bits]; [done|].
  change (decode (encode_marker m :: map encode_flag (b :: bits))) with
    (match decode_marker (encode_marker m),
           decode_flags (map encode_flag (b :: bits)) with
     | Some isMethod, Some bits => Some (AutoDiffParameterIndices.mk bits isMethod)
     | _, _ => None
     end).
  by rewrite decode_encode_marker, decode_encode_flags.
Qed.

Lemma getString_create_roundtrip_witness :
  Z.of_nat (length (AutoDiffParameterIndices.indices
                      (AutoDiffParameterIndices.mk [true; false; true] true)))
  < U32.modulus
  /\ exists s : list ascii,
       AutoDiffParameterIndices.getString
         (AutoDiffParameterIndices.mk [true; false; true] true) = Done s
       /\ AutoDiffParameterIndices.create_of_string s
          = Done (Some (AutoDiffParameterIndices.mk [true; false; true] true)).
Proof.
  assert (H : Z.of_nat (length (AutoDiffParameterIndices.indices
                (AutoDiffParameterIndices.mk [true; false; true] true)))
              < U32.modulus) by reflexivity.
  split; [exact H|].
  exact (getString_create_roundtrip
           (AutoDiffParameterIndices.mk [true; false; true] true) H).
Defined.




(** ** The setters of [AutoDiffParameterIndices] *)

Section Setters.
Import AutoDiffParameterIndices.

Lemma getNumNonSelfParameters_valid (x : t) :
  valid x ->
  getNumNonSelfParameters x
  = Z.of_nat (length (indices x)) - (if isMethodFlag x then 1 else 0)
  /\ 0 <= getNumNonSelfParameters x <= Z.of_nat (length (indices x)).
Proof.
  intros [Hself Hfit]. unfold getNumNonSelfParameters, U32.sub, SmallBitVector.size.
  destruct (isMethodFlag x).
  - specialize (Hself eq_refl). rewrite wrap_small by lia. lia.
  - rewrite wrap_small by lia. lia.
Qed.

Lemma set_Done_inv (v v' : bitvec) (i : Z) :
  SmallBitVector.set v i = Done v' ->
  0 <= i < Z.of_nat (length v) /\ v' = <[Z.to_nat i := true]> v.
Proof.
  unfold SmallBitVector.set, SmallBitVector.in_bounds, SmallBitVector.size.
  destruct (Z.leb_spec 0 i); [|discriminate].
  destruct (Z.ltb_spec i (Z.of_nat (length v))); [|discriminate].
  intros [= <-]. split; [lia|done].
Qed.

Lemma set_range_Done_inv (v v' : bitvec) (I E : Z) :
  SmallBitVector.set_range v I E = Done v' ->
  I <= E <= Z.of_nat (length v)
  /\ v' = take (Z.to_nat I) v
          ++ replicate (Z.to_nat E - Z.to_nat I)%nat true
          ++ drop (Z.to_nat E) v.
Proof.
  unfold SmallBitVector.set_range, SmallBitVector.size.
  destruct (Z.leb_spec I E); [|discriminate].
  destruct (Z.leb_spec E (Z.of_nat (length v))); [|discriminate].
  intros [= <-]. split; [lia|done].
Qed.

Lemma set_range_Done (v : bitvec) (I E : Z) :
  I <= E <= Z.of_nat (length v) ->
  SmallBitVector.set_range v I E
  = Done (take (Z.to_nat I) v
          ++ replicate (Z.to_nat E - Z.to_nat I)%nat true
          ++ drop (Z.to_nat E) v).
Proof.
  intros H. unfold SmallBitVector.set_range, SmallBitVector.size.
  destruct (Z.leb_spec I E); [|lia].
  destruct (Z.leb_spec E (Z.of_nat (length v))); [done|lia].
Qed.

(** The bits of a vector after [set(I, E)]. *)
Lemma lookup_set_range (v : bitvec) (a b j : nat) :
  (a <= b <= length v)%nat ->
  (take a v ++ replicate (b - a) true ++ drop b v) !! j
  = if decide (a <= j < b)%nat then Some true else v !! j.
Proof.
  intros H. case_decide as Hj.
  - rewrite lookup_app_r by (rewrite length_take; lia).
    rewrite length_take_le by lia.
    rewrite lookup_app_l by (rewrite length_replicate; lia).
    apply lookup_replicate_2. lia.
  - destruct (decide (j < a)%nat).
    + rewrite lookup_app_l by (rewrite length_take; lia).
      apply lookup_take_lt. lia.
    + rewrite lookup_app_r by (rewrite length_take; lia).
      rewrite length_take_le by lia.
      rewrite lookup_app_r by (rewrite length_replicate; lia).
      rewrite length_replicate, lookup_drop. f_equal. lia.
Qed.

Lemma length_set_range (v : bitvec) (a b : nat) :
  (a <= b <= length v)%nat ->
  length (take a v ++ replicate (b - a) true ++ drop b v) = length v.
Proof.
  intros H. rewrite !length_app, length_take, length_replicate, length_drop. lia.
Qed.

End Setters.



(** C10. The setters are additive and change nothing else.  On a valid set
    [getNumNonSelfParameters] is the size of the bit-vector, less one for a
    method, and [setAllNonSelfParameters] returns, sets every bit before
    that position and leaves every other bit as it was: the receiver bit, the
    last bit of a method set, is unchanged.  Whenever
    [setNonSelfParameter], [setAllNonSelfParameters] or [setSelfParameter]
    returns, the method flag and the length of the bit-vector are unchanged
    and every bit that was set is still set. *)
Theorem setters_frame :
  (forall x : AutoDiffParameterIndices.t,
     valid x ->
     AutoDiffParameterIndices.getNumNonSelfParameters x
     = Z.of_nat (length (AutoDiffParameterIndices.indices x)
                 - (if AutoDiffParameterIndices.isMethodFlag x
                    then 1 else 0))%nat
     /\ exists v : bitvec,
          AutoDiffParameterIndices.setAllNonSelfParameters x
          = Done (AutoDiffParameterIndices.mk v
                    (AutoDiffParameterIndices.isMethodFlag x))
          /\ length v = length (AutoDiffParameterIndices.indices x)
          /\ (forall j : nat,
                (j < length (AutoDiffParameterIndices.indices x)
                     - (if AutoDiffParameterIndices.isMethodFlag x
                        then 1 else 0))%nat ->
                v !! j = Some true)
          /\ (forall j : nat,
                (length (AutoDiffParameterIndices.indices x)
                 - (if AutoDiffParameterIndices.isMethodFlag x
                    then 1 else 0) <= j)%nat ->
                v !! j = AutoDiffParameterIndices.indices x !! j)
          /\ (AutoDiffParameterIndices.isMethodFlag x = true ->
              last v = last (AutoDiffParameterIndices.indices x)))
  /\ (forall x x' : AutoDiffParameterIndices.t,
        (AutoDiffParameterIndices.setAllNonSelfParameters x = Done x'
         \/ AutoDiffParameterIndices.setSelfParameter x = Done x'
         \/ exists i : Z,
              AutoDiffParameterIndices.setNonSelfParameter x i = Done x') ->
        AutoDiffParameterIndices.isMethodFlag x'
        = AutoDiffParameterIndices.isMethodFlag x
        /\ length (AutoDiffParameterIndices.indices x')
           = length (AutoDiffParameterIndices.indices x)
        /\ forall j : nat,
             bit (AutoDiffParameterIndices.indices x) j ->
             bit (AutoDiffParameterIndices.indices x') j).
Proof.
  split.
  - intros x Hvalid.
    destruct (getNumNonSelfParameters_valid x Hvalid) as [Hnum Hbound].
    destruct Hvalid as [Hself Hfit].
    assert (Hcount :
      AutoDiffParameterIndices.getNumNonSelfParameters x
      = Z.of_nat (length (AutoDiffParameterIndices.indices x)
                  - (if AutoDiffParameterIndices.isMethodFlag x
                     then 1 else 0))%nat).
    { rewrite Hnum.
      destruct (AutoDiffParameterIndices.isMethodFlag x);
        [specialize (Hself eq_refl)|]; lia. }
    split; [exact Hcount|].
    unfold AutoDiffParameterIndices.setAllNonSelfParameters.
    rewrite set_range_Done by lia. cbn [bind]. eexists. split; [reflexivity|].
    change (Z.to_nat 0) with 0%nat. rewrite Hcount, Nat2Z.id.
    set (n := (length (AutoDiffParameterIndices.indices x)
               - (if AutoDiffParameterIndices.isMethodFlag x then 1 else 0))%nat).
    assert (Hn : (0 <= n <= length (AutoDiffParameterIndices.indices x))%nat)
      by (unfold n; lia).
    assert (Hlen : length (take 0 (AutoDiffParameterIndices.indices x)
                           ++ replicate (n - 0) true
                           ++ drop n (AutoDiffParameterIndices.indices x))
                   = length (AutoDiffParameterIndices.indices x))
      by (by apply length_set_range).
    split; [exact Hlen|]. split; [|split].
    + intros j Hj. rewrite lookup_set_range by done. case_decide; [done|lia].
    + intros j Hj. rewrite lookup_set_range by done. case_decide; [lia|done].
    + intros Hm. rewrite !last_lookup, Hlen, lookup_set_range by done.
      specialize (Hself Hm). case_decide as Hj; [|done].
      unfold n in Hj. rewrite Hm in Hj. lia.
  - assert (Hset : forall (v v' : bitvec) (i : Z),
      SmallBitVector.set v i = Done v' ->
      length v' = length v /\ forall j, bit v j -> bit v' j).
    { intros v v' i Hrun. apply set_Done_inv in Hrun as [Hi ->].
      split; [apply length_insert|]. intros j Hj.
      apply bit_insert; [lia|]. by left. }
    intros x x' [Hrun|[Hrun|[i Hrun]]].
    + unfold AutoDiffParameterIndices.setAllNonSelfParameters in Hrun.
      destruct (SmallBitVector.set_range _ _ _) as [v|] eqn:Hv; [|discriminate].
      cbn [bind] in Hrun. injection Hrun as <-.
      cbn [AutoDiffParameterIndices.isMethodFlag AutoDiffParameterIndices.indices].
      apply set_range_Done_inv in Hv as [Hle ->].
      change (Z.to_nat 0) with 0%nat.
      split; [done|]. split; [apply length_set_range; lia|].
      intros j Hj. unfold bit in *. rewrite lookup_set_range by lia.
      by case_decide.
    + unfold AutoDiffParameterIndices.setSelfParameter in Hrun.
      destruct (AutoDiffParameterIndices.isMethodFlag x) eqn:Hm; [|discriminate].
      destruct (SmallBitVector.set _ _) as [v|] eqn:Hv; [|discriminate].
      cbn [bind] in Hrun. injection Hrun as <-.
      cbn [AutoDiffParameterIndices.isMethodFlag AutoDiffParameterIndices.indices].
      split; [done|]. by apply Hset in Hv.
    + unfold AutoDiffParameterIndices.setNonSelfParameter in Hrun.
      destruct (i <? _); [|discriminate].
      destruct (SmallBitVector.set _ _) as [v|] eqn:Hv; [|discriminate].
      cbn [bind] in Hrun. injection Hrun as <-.
      cbn [AutoDiffParameterIndices.isMethodFlag AutoDiffParameterIndices.indices].
      split; [done|]. by apply Hset in Hv.
Qed.

Lemma setters_frame_witness :
  valid (AutoDiffParameterIndices.mk [false; true; false; false] true)
  /\ AutoDiffParameterIndices.getNumNonSelfParameters
       (AutoDiffParameterIndices.mk [false; true; false; false] true) = 3
  /\ AutoDiffParameterIndices.setAllNonSelfParameters
       (AutoDiffParameterIndices.mk [false; true; false; false] true)
     = Done (AutoDiffParameterIndices.mk [true; true; true; false] true)
  /\ exists v : bitvec,
       AutoDiffParameterIndices.setAllNonSelfParameters
         (AutoDiffParameterIndices.mk [false; true; false; false] true)
       = Done (AutoDiffParameterIndices.mk v true)
       /\ length v = 4%nat
       /\ (forall j : nat, (j < 3)%nat -> v !! j = Some true)
       /\ (forall j : nat,
             (3 <= j)%nat -> v !! j = [false; true; false; false] !! j)
       /\ (true = true -> last v = Some false).
Proof.
  assert (H : valid (AutoDiffParameterIndices.mk [false; true; false; false] true)).
  { split; [intros _; simpl; lia|reflexivity]. }
  split; [exact H|].
  destruct (proj1 setters_frame _ H) as [Hcount Hset].
  split; [exact Hcount|]. split; [reflexivity|]. exact Hset.
Defined.

(** ** Receiver stripping and shape-based construction *)

Section Shapes.
Import AutoDiffParameterIndices.

Lemma asReceiverWrapper_Some (functionType : AnyFunctionType) self inner :
  asReceiverWrapper functionType = Some (self, inner) <->
  getParams functionType = [self]
  /\ getResult functionType = FunctionType (getParams inner) (getResult inner).
Proof.
  unfold asReceiverWrapper. destruct functionType as [ps r], inner as [ips ir].
  cbn [getParams getResult].
  destruct ps as [|p [|q ps]]; [split; [discriminate|intros [[=] _]]| |].
  - destruct r as [n|es|fps fr].
    + split; [discriminate|intros [_ [=]]].
    + split; [discriminate|intros [_ [=]]].
    + split; [intros [= -> -> ->]; done|intros [[= ->] [= -> ->]]; done].
  - split; [destruct r; discriminate|intros [[=] _]].
Qed.

(** [unwrapSelfParameter] returns exactly on the shapes whose receiver can be
    stripped, and returns the stripped shape. *)
Lemma unwrapSelfParameter_Done (functionType inner : AnyFunctionType)
    (isMethod : bool) :
  unwrapSelfParameter functionType isMethod = Done inner
  <-> strippedShape functionType isMethod = Some inner.
Proof.
  unfold unwrapSelfParameter, strippedShape, asReceiverWrapper, getNumParams.
  destruct isMethod; [|split; intros [= ->]; done].
  destruct functionType as [ps r]. cbn [getParams getResult].
  destruct ps as [|p [|q ps]]; cbn [length].
  - split; discriminate.
  - change (Z.of_nat 1 =? 1) with true. cbn match.
    destruct r; cbn; split; intros [= <-]; done.
  - replace (Z.of_nat (S (S (length ps))) =? 1) with false
      by (symmetry; apply Z.eqb_neq; lia).
    split; [discriminate|]. destruct r; discriminate.
Qed.

Lemma unwrapSelfParameter_not_wrapper (functionType : AnyFunctionType) :
  (getNumParams functionType <> 1 ->
   unwrapSelfParameter functionType true
   = Fatal "unexpected num params for method")
  /\ ((forall params result,
         getResult functionType <> FunctionType params result) ->
      aborts (unwrapSelfParameter functionType true)).
Proof.
  unfold unwrapSelfParameter. split.
  - intros Hne. by destruct (Z.eqb_spec (getNumParams functionType) 1).
  - intros Hres. destruct (getNumParams functionType =? 1); [|by eexists].
    destruct (getResult functionType) as [n|es|ps r]; [by eexists..|].
    by destruct (Hres ps r).
Qed.

End Shapes.

(** C8. Shape-based construction returns, for a shape whose receiver can be
    stripped (any shape when [isMethod] is false, a single-receiver curried
    wrapper when it is true), a set with the given method flag whose
    bit-vector has as many bits as the stripped shape has parameters, plus one
    for a method, every bit being set iff [setAllParams].  When [isMethod] is
    true and the shape's outer parameter count is not 1, or its result is not
    a function type, the construction dies on an assertion. *)
Theorem create_of_shape_spec
    (functionType : AnyFunctionType) (isMethod setAllParams : bool) :
  (forall inner : AnyFunctionType,
     strippedShape functionType isMethod = Some inner ->
     getNumParams inner + (if isMethod then 1 else 0) < U32.modulus ->
     exists x : AutoDiffParameterIndices.t,
       AutoDiffParameterIndices.create functionType isMethod setAllParams
       = Done x
       /\ AutoDiffParameterIndices.isMethodFlag x = isMethod
       /\ Z.of_nat (length (AutoDiffParameterIndices.indices x))
          = getNumParams inner + (if isMethod then 1 else 0)
       /\ forall j : nat,
            (j < length (AutoDiffParameterIndices.indices x))%nat ->
            AutoDiffParameterIndices.indices x !! j = Some setAllParams)
  /\ (isMethod = true ->
      (getNumParams functionType <> 1 ->
       AutoDiffParameterIndices.create functionType isMethod setAllParams
       = Fatal "unexpected num params for method")
      /\ ((forall params result,
             getResult functionType <> FunctionType params result) ->
          aborts
            (AutoDiffParameterIndices.create functionType isMethod
               setAllParams))).
Proof.
  split.
  - intros inner Hinner Hfit.
    apply unwrapSelfParameter_Done in Hinner.
    unfold AutoDiffParameterIndices.create. rewrite Hinner. cbn [bind].
    eexists. split; [reflexivity|].
    assert (Hcount : U32.add (getNumParams inner) (if isMethod then 1 else 0)
                     = getNumParams inner + (if isMethod then 1 else 0)).
    { unfold U32.add. apply wrap_small. unfold getNumParams in *.
      destruct isMethod; lia. }
    rewrite Hcount. unfold AutoDiffParameterIndices.make.
    cbn [AutoDiffParameterIndices.isMethodFlag AutoDiffParameterIndices.indices].
    split; [done|].
    assert (Hlen : length (if setAllParams
                      then SmallBitVector.set_all
                             (SmallBitVector.make
                                (getNumParams inner + (if isMethod then 1 else 0))
                                false)
                      else SmallBitVector.make
                             (getNumParams inner + (if isMethod then 1 else 0))
                             false)
                   = Z.to_nat (getNumParams inner + (if isMethod then 1 else 0))).
    { unfold SmallBitVector.set_all, SmallBitVector.make.
      destruct setAllParams; rewrite ?length_map, length_replicate; done. }
    split.
    + rewrite Hlen. unfold getNumParams. destruct isMethod; lia.
    + intros j Hj. rewrite Hlen in Hj.
      unfold SmallBitVector.set_all, SmallBitVector.make.
      destruct setAllParams.
      * rewrite list_lookup_fmap, lookup_replicate_2 by done. done.
      * by rewrite lookup_replicate_2.
  - intros ->. unfold AutoDiffParameterIndices.create.
    destruct (unwrapSelfParameter_not_wrapper functionType) as [Hnum Hres].
    split.
    + intros Hne. by rewrite Hnum.
    + intros Hnot. destruct (Hres Hnot) as [msg ->]. by exists msg.
Qed.

Lemma create_of_shape_spec_witness :
  strippedShape
    (mkFn [Nominal "Self"]
       (FunctionType [Nominal "A"; Nominal "B"] (Nominal "R"))) true
  = Some (mkFn [Nominal "A"; Nominal "B"] (Nominal "R"))
  /\ getNumParams (mkFn [Nominal "A"; Nominal "B"] (Nominal "R")) + 1
     < U32.modulus
  /\ exists x : AutoDiffParameterIndices.t,
       AutoDiffParameterIndices.create
         (mkFn [Nominal "Self"]
            (FunctionType [Nominal "A"; Nominal "B"] (Nominal "R")))
         true true = Done x
       /\ AutoDiffParameterIndices.isMethodFlag x = true
       /\ Z.of_nat (length (AutoDiffParameterIndices.indices x)) = 2 + 1.
Proof.
  assert (H1 : strippedShape
    (mkFn [Nominal "Self"]
       (FunctionType [Nominal "A"; Nominal "B"] (Nominal "R"))) true
    = Some (mkFn [Nominal "A"; Nominal "B"] (Nominal "R"))) by reflexivity.
  assert (H2 : getNumParams (mkFn [Nominal "A"; Nominal "B"] (Nominal "R")) + 1
               < U32.modulus) by reflexivity.
  split; [exact H1|]. split; [exact H2|].
  destruct (proj1 (create_of_shape_spec _ true true) _ H1 H2)
    as (x & Hrun & Hm & Hlen & _).
  exists x. split; [exact Hrun|]. split; [exact Hm|exact Hlen].
Defined.

(** ** The types of the selected parameters *)

Section SubsetTypes.
Import AutoDiffParameterIndices.

Lemma selectedTypes_cons (p : Ty) (params : list Ty) (b : bool) (bits : bitvec) :
  selectedTypes (p :: params) (b :: bits)
  = (if b then [p] else []) ++ selectedTypes params bits.
Proof. unfold selectedTypes. by destruct b. Qed.

(** The loop over the parameters [rest] that remain after [pre] pushes the
    selected ones, in order. *)
Lemma push_selected_spec (x : t) (functionType : AnyFunctionType)
    (rest pre : list Ty) (irest ipre : bitvec) (paramTypes : list Ty) :
  getParams functionType = pre ++ rest ->
  indices x = ipre ++ irest ->
  length ipre = length pre ->
  (length rest <= length irest)%nat ->
  push_selected x functionType
    (seqZ (Z.of_nat (length pre)) (Z.of_nat (length rest))) paramTypes
  = Done (paramTypes ++ selectedTypes rest irest).
Proof.
  revert pre irest ipre paramTypes.
  induction rest as [|p rest IH]; intros pre irest ipre paramTypes Hps Hbits Hlen Hle.
  - simpl. unfold selectedTypes. simpl. by rewrite app_nil_r.
  - destruct irest as [|b irest]; [simpl in Hle; lia|].
    cbn [length]. rewrite range_S. cbn [push_selected].
    rewrite (get_lookup _ _ b)
      by (rewrite Hbits, <- Hlen; apply list_lookup_middle, eq_refl).
    cbn [bind].
    assert (Hnext : forall out,
      push_selected x functionType
        (seqZ (Z.of_nat (length pre) + 1) (Z.of_nat (length rest))) out
      = Done (out ++ selectedTypes rest irest)).
    { intros out.
      replace (Z.of_nat (length pre) + 1) with (Z.of_nat (length (pre ++ [p])))
        by (rewrite length_app; simpl; lia).
      apply (IH (pre ++ [p]) irest (ipre ++ [b])).
      - by rewrite <- app_assoc.
      - by rewrite <- app_assoc.
      - rewrite !length_app. simpl. lia.
      - simpl in Hle. lia. }
    rewrite selectedTypes_cons. destruct b.
    + unfold getParamType.
      rewrite (at_index_Done _ _ p)
        by (rewrite Hps; apply list_lookup_middle, eq_refl).
      cbn [bind]. rewrite Hnext. by rewrite <- app_assoc.
    + apply Hnext.
Qed.

End SubsetTypes.

(** C4. For a method set and a receiver that has not been uncurried,
    [getSubsetParameterTypes] on the shape [(Self) -> (params) -> result]
    pushes the receiver's type (the parameter at position 0 of the original
    shape) first iff the receiver bit, the last bit, is set, and then the
    types of the unwrapped shape's parameters whose bit is set, in ascending
    position order.  For [(Self) -> (A, B, C) -> R] with the receiver and [C]
    selected the result is [[Self; C]]. *)
Theorem getSubsetParameterTypes_method :
  (forall (x : AutoDiffParameterIndices.t) (self : Ty) (params : list Ty)
          (result : Ty) (paramTypes : list Ty),
     AutoDiffParameterIndices.isMethodFlag x = true ->
     length (AutoDiffParameterIndices.indices x) = S (length params) ->
     Z.of_nat (length (AutoDiffParameterIndices.indices x)) < U32.modulus ->
     AutoDiffParameterIndices.getSubsetParameterTypes x
       (mkFn [self] (FunctionType params result)) paramTypes false
     = Done (paramTypes
             ++ (if default false (last (AutoDiffParameterIndices.indices x))
                 then [self] else [])
             ++ selectedTypes params (AutoDiffParameterIndices.indices x)))
  /\ AutoDiffParameterIndices.getSubsetParameterTypes
       (AutoDiffParameterIndices.mk [false; false; true; true] true)
       (mkFn [Nominal "Self"]
          (FunctionType [Nominal "A"; Nominal "B"; Nominal "C"] (Nominal "R")))
       [] false
     = Done [Nominal "Self"; Nominal "C"].
Proof.
  split; [|reflexivity].
  intros x self params result paramTypes Hm Hlen Hfit.
  unfold AutoDiffParameterIndices.getSubsetParameterTypes.
  rewrite Hm. cbn [andb].
  unfold unwrapSelfParameter.
  change (getNumParams (mkFn [self] (FunctionType params result)) =? 1) with true.
  cbn [getResult castToAnyFunctionType bind].
  unfold AutoDiffParameterIndices.selfSelected. rewrite Hm.
  unfold U32.sub, SmallBitVector.size. rewrite wrap_small by lia.
  destruct (last (AutoDiffParameterIndices.indices x)) as [b|] eqn:Hlast.
  2:{ apply last_None in Hlast. rewrite Hlast in Hlen. discriminate. }
  rewrite last_lookup in Hlast.
  replace (Z.of_nat (length (AutoDiffParameterIndices.indices x)) - 1)
    with (Z.of_nat (Nat.pred (length (AutoDiffParameterIndices.indices x))))
    by lia.
  rewrite (get_lookup _ _ b Hlast). cbn [bind default].
  assert (Hloop : forall out,
    AutoDiffParameterIndices.push_selected x (mkFn params result)
      (range (getNumParams (mkFn params result))) out
    = Done (out ++ selectedTypes params (AutoDiffParameterIndices.indices x))).
  { intros out.
    apply (push_selected_spec x (mkFn params result) params []
             (AutoDiffParameterIndices.indices x) [] out); try done.
    lia. }
  destruct b.
  - unfold getParamType. rewrite (at_index_Done _ 0 self) by done.
    cbn [bind]. by rewrite Hloop, <- app_assoc.
  - cbn [bind]. by rewrite Hloop.
Qed.


Lemma getSubsetParameterTypes_method_witness :
  AutoDiffParameterIndices.isMethodFlag
    (AutoDiffParameterIndices.mk [true; false; true] true) = true
  /\ length (AutoDiffParameterIndices.indices
               (AutoDiffParameterIndices.mk [true; false; true] true))
     = S (length [Nominal "A"; Nominal "B"])
  /\ Z.of_nat (length (AutoDiffParameterIndices.indices
                         (AutoDiffParameterIndices.mk [true; false; true] true)))
     < U32.modulus
  /\ AutoDiffParameterIndices.getSubsetParameterTypes
       (AutoDiffParameterIndices.mk [true; false; true] true)
       (mkFn [Nominal "Self"]
          (FunctionType [Nominal "A"; Nominal "B"] (Nominal "R")))
       [] false
     = Done [Nominal "Self"; Nominal "A"].
Proof.
  split; [reflexivity|]. split; [reflexivity|]. split; [reflexivity|].
  exact (proj1 getSubsetParameterTypes_method
           (AutoDiffParameterIndices.mk [true; false; true] true)
           (Nominal "Self") [Nominal "A"; Nominal "B"] (Nominal "R") []
           eq_refl eq_refl eq_refl).
Defined.

(** ** Lowering *)

Section Lowering.
Import AutoDiffParameterIndices.

Lemma Ty_nested_ind (P : Ty -> Prop) :
  (forall name, P (Nominal name)) ->
  (forall elements, Forall P elements -> P (TupleType elements)) ->
  (forall params result, P result -> P (FunctionType params result)) ->
  forall type, P type.
Proof.
  intros Hn Ht Hf. fix IH 1. intros [name|elements|params result].
  - apply Hn.
  - apply Ht. induction elements as [|e elements IHes].
    + apply Forall_nil_2.
    + apply Forall_cons_2; [apply IH|apply IHes].
  - apply Hf, IH.
Qed.

Lemma sum_list_cons (n : nat) (l : list nat) :
  sum_list (n :: l) = (n + sum_list l)%nat.
Proof. reflexivity. Qed.

Lemma count_tuple (elements : list Ty) :
  countNumFlattenedElementTypes (TupleType elements)
  = fold_left
      (fun num type => U32.add num (countNumFlattenedElementTypes type))
      elements 0.
Proof. reflexivity. Qed.

Lemma flattenedWidth_tuple (elements : list Ty) :
  flattenedWidth (TupleType elements)
  = sum_list (map flattenedWidth elements).
Proof. reflexivity. Qed.

(** As long as the width fits an [unsigned], the count computed in
    [unsigned] arithmetic is the flattened width. *)
Lemma count_exact (type : Ty) :
  Z.of_nat (flattenedWidth type) < U32.modulus ->
  countNumFlattenedElementTypes type = Z.of_nat (flattenedWidth type).
Proof.
  induction type as [name|elements IH|params result _] using Ty_nested_ind;
    [done| |done].
  rewrite count_tuple, flattenedWidth_tuple.
  change 0 with (Z.of_nat 0).
  rewrite <- (Nat.add_0_l (sum_list _)).
  generalize 0%nat as acc. rewrite modulus_eq in *.
  induction elements as [|e elements IHes]; intros acc Hfit.
  - simpl. f_equal. lia.
  - apply Forall_cons in IH as [He IH].
    cbn [map fold_left] in *. rewrite sum_list_cons in Hfit.
    rewrite sum_list_cons.
    rewrite He by lia. unfold U32.add at 2.
    rewrite wrap_small by (rewrite modulus_eq; lia).
    rewrite <- Nat2Z.inj_add, IHes by (done || lia). f_equal. lia.
Qed.

(** The first loop of [getLowered] records the width of every parameter and
    their total. *)
Lemma addLoweredParamInfo_fold (params : list Ty) (sizes : list Z) (total : nat) :
  Z.of_nat (total + sum_list (map flattenedWidth params)) < U32.modulus ->
  fold_left addLoweredParamInfo params (sizes, Z.of_nat total)
  = (sizes ++ map Z.of_nat (map flattenedWidth params),
     Z.of_nat (total + sum_list (map flattenedWidth params))).
Proof.
  revert sizes total. rewrite modulus_eq.
  induction params as [|p params IH]; intros sizes total Hfit.
  - simpl. rewrite app_nil_r. do 2 f_equal. lia.
  - cbn [map fold_left] in *. rewrite sum_list_cons in *.
    unfold addLoweredParamInfo at 2. cbn [fst snd].
    rewrite count_exact by (rewrite modulus_eq; lia).
    unfold U32.add. rewrite wrap_small by (rewrite modulus_eq; lia).
    rewrite <- Nat2Z.inj_add, IH by lia.
    rewrite <- app_assoc. do 2 f_equal. lia.
Qed.

Lemma addLoweredParamInfo_fold_start (params : list Ty) :
  Z.of_nat (sum_list (map flattenedWidth params)) < U32.modulus ->
  fold_left addLoweredParamInfo params ([], 0)
  = (map Z.of_nat (map flattenedWidth params),
     Z.of_nat (sum_list (map flattenedWidth params))).
Proof. intros Hfit. exact (addLoweredParamInfo_fold params [] 0 Hfit). Qed.

Lemma loweredBits_nil (widths : list nat) :
  loweredBits widths [] = replicate (sum_list widths) false.
Proof.
  induction widths as [|w widths IH]; [done|].
  cbn [loweredBits head tail default]. rewrite IH, sum_list_cons.
  by rewrite replicate_add.
Qed.



Lemma set_range_middle (seen : bitvec) (w s : nat) :
  SmallBitVector.set_range (seen ++ replicate (w + s) false)
    (Z.of_nat (length seen)) (Z.of_nat (length seen) + Z.of_nat w)
  = Done (seen ++ replicate w true ++ replicate s false).
Proof.
  rewrite set_range_Done by (rewrite length_app, length_replicate; lia).
  f_equal. rewrite Nat2Z.id.
  replace (Z.to_nat (Z.of_nat (length seen) + Z.of_nat w))
    with (length seen + w)%nat by lia.
  rewrite take_app_length.
  replace (length seen + w - length seen)%nat with w by lia.
  rewrite drop_app, drop_ge by lia.
  replace (length seen + w - length seen)%nat with w by lia.
  rewrite drop_replicate.
  replace (w + s - w)%nat with s by lia. done.
Qed.

(** The second loop of [getLowered]: after the bits [ipre] have been
    expanded into [seen], expanding the remaining bits [irest] over the
    remaining widths yields [loweredBits]. *)
Lemma set_lowered_spec (irest ipre : bitvec) (widths : list nat)
    (spre : list Z) (seen : bitvec) :
  length spre = length ipre ->
  (length irest <= length widths)%nat ->
  Z.of_nat (length seen + sum_list widths) < U32.modulus ->
  set_lowered (ipre ++ irest) (spre ++ map Z.of_nat widths)
    (seqZ (Z.of_nat (length ipre)) (Z.of_nat (length irest)))
    (seen ++ replicate (sum_list widths) false) (Z.of_nat (length seen))
  = Done (seen ++ loweredBits widths irest).
Proof.
  revert ipre widths spre seen. rewrite modulus_eq.
  induction irest as [|b irest IH]; intros ipre widths spre seen Hpre Hle Hfit.
  - simpl. by rewrite loweredBits_nil.
  - destruct widths as [|w widths]; [simpl in Hle; lia|].
    cbn [length map] in *. rewrite sum_list_cons in *.
    rewrite range_S. cbn [set_lowered].
    rewrite (at_index_Done _ _ (Z.of_nat w))
      by (rewrite <- Hpre; apply list_lookup_middle, eq_refl).
    cbn [bind].
    rewrite (get_lookup _ _ b) by apply list_lookup_middle, eq_refl.
    cbn [bind].
    assert (Hcur : U32.add (Z.of_nat (length seen)) (Z.of_nat w)
                   = Z.of_nat (length seen) + Z.of_nat w).
    { unfold U32.add. apply wrap_small. rewrite modulus_eq. lia. }
    rewrite Hcur.
    assert (Hnext :
      set_lowered (ipre ++ b :: irest) (spre ++ Z.of_nat w :: map Z.of_nat widths)
        (seqZ (Z.of_nat (length ipre) + 1) (Z.of_nat (length irest)))
        (seen ++ replicate w b ++ replicate (sum_list widths) false)
        (Z.of_nat (length seen) + Z.of_nat w)
      = Done (seen ++ replicate w b ++ loweredBits widths irest)).
    { replace (ipre ++ b :: irest) with ((ipre ++ [b]) ++ irest)
        by (by rewrite <- app_assoc).
      replace (spre ++ Z.of_nat w :: map Z.of_nat widths)
        with ((spre ++ [Z.of_nat w]) ++ map Z.of_nat widths)
        by (by rewrite <- app_assoc).
      replace (Z.of_nat (length ipre) + 1)
        with (Z.of_nat (length (ipre ++ [b])))
        by (rewrite length_app; simpl; lia).
      replace (Z.of_nat (length seen) + Z.of_nat w)
        with (Z.of_nat (length (seen ++ replicate w b)))
        by (rewrite length_app, length_replicate; lia).
      rewrite !(app_assoc seen).
      apply IH.
      - rewrite !length_app. simpl. lia.
      - lia.
      - rewrite length_app, length_replicate. lia. }
    cbn [loweredBits head tail default].
    destruct b.
    + rewrite set_range_middle. cbn [bind]. exact Hnext.
    + cbn [bind]. rewrite replicate_add. exact Hnext.
Qed.

(** [getLowered] on a shape whose logical parameters are [params]. *)
Lemma getLowered_loweredBits (x : t) (functionType : AnyFunctionType)
    (selfUncurried : bool) (params : list Ty) :
  logicalParameters functionType (isMethodFlag x) selfUncurried = Some params ->
  (length (indices x) <= length params)%nat ->
  Z.of_nat (sum_list (map flattenedWidth params)) < U32.modulus ->
  getLowered x functionType selfUncurried
  = Done (loweredBits (map flattenedWidth params) (indices x)).
Proof.
  intros Hps Hle Hfit.
  assert (Hloop :
    set_lowered (indices x) (map Z.of_nat (map flattenedWidth params))
      (range (SmallBitVector.size (indices x)))
      (SmallBitVector.make
         (Z.of_nat (sum_list (map flattenedWidth params))) false) 0
    = Done (loweredBits (map flattenedWidth params) (indices x))).
  { unfold SmallBitVector.make. rewrite Nat2Z.id.
    apply (set_lowered_spec (indices x) [] (map flattenedWidth params) [] []);
      [done|by rewrite length_map|done]. }
  unfold getLowered, logicalParameters in *.
  destruct selfUncurried.
  - injection Hps as <-. cbn [bind]. rewrite andb_false_r.
    rewrite addLoweredParamInfo_fold_start by done.
    cbn [bind]. exact Hloop.
  - destruct (isMethodFlag x) eqn:Hm.
    + destruct (asReceiverWrapper functionType) as [[self inner]|] eqn:Hw;
        [|discriminate].
      injection Hps as <-.
      assert (Hunwrap : unwrapSelfParameter functionType true = Done inner).
      { apply unwrapSelfParameter_Done. unfold strippedShape. by rewrite Hw. }
      rewrite Hunwrap. cbn [bind andb negb].
      apply asReceiverWrapper_Some in Hw as [Hself _].
      unfold getParamType. rewrite Hself, (at_index_Done _ 0 self) by done.
      cbn [bind].
      rewrite !map_app in Hloop. cbn [map] in Hloop.
      rewrite map_app, sum_list_with_app in Hfit. cbn [map] in Hfit.
      rewrite sum_list_cons in Hfit. rewrite modulus_eq in Hfit.
      rewrite sum_list_with_app, sum_list_cons in Hloop.
      rewrite addLoweredParamInfo_fold_start by (rewrite modulus_eq; lia).
      unfold addLoweredParamInfo. cbn [fst snd].
      rewrite count_exact by (rewrite modulus_eq; lia).
      unfold U32.add. rewrite wrap_small by (rewrite modulus_eq; lia).
      rewrite <- Nat2Z.inj_add.
      replace (flattenedWidth self + sum_list [])%nat
        with (flattenedWidth self) in Hloop by (simpl; lia).
      rewrite ?map_app. cbn [map bind]. exact Hloop.
    + injection Hps as <-. cbn [unwrapSelfParameter bind andb].
      rewrite addLoweredParamInfo_fold_start by done.
      cbn [bind]. exact Hloop.
Qed.

End Lowering.



(** ** The examples of the source's comments

    The model reproduces the examples that the comments of [AutoDiff.cpp]
    give for the functions above. *)

Section SourceExamples.
Import AutoDiffParameterIndices.

Example unwrapSelfParameter_example :
  unwrapSelfParameter
    (mkFn [Nominal "Self"]
       (FunctionType [Nominal "A"; Nominal "B"] (Nominal "R"))) true
  = Done (mkFn [Nominal "A"; Nominal "B"] (Nominal "R")).
Proof. reflexivity. Qed.

Example setNonSelfParameter_example :
  (let* x :=
     create
       (mkFn [Nominal "Self"]
          (FunctionType [Nominal "A"; Nominal "B"; Nominal "C"] (Nominal "R")))
       true false in
   setNonSelfParameter x 0)
  = Done (mk [true; false; false; false] true).
Proof. reflexivity. Qed.

Example setAllNonSelfParameters_example :
  (let* x :=
     create
       (mkFn [Nominal "Self"]
          (FunctionType [Nominal "A"; Nominal "B"; Nominal "C"] (Nominal "R")))
       true false in
   setAllNonSelfParameters x)
  = Done (mk [true; true; true; false] true).
Proof. reflexivity. Qed.

Example setSelfParameter_example :
  (let* x :=
     create
       (mkFn [Nominal "Self"]
          (FunctionType [Nominal "A"; Nominal "B"; Nominal "C"] (Nominal "R")))
       true false in
   setSelfParameter x)
  = Done (mk [false; false; false; true] true).
Proof. reflexivity. Qed.

Example getSubsetParameterTypes_function_example :
  getSubsetParameterTypes (mk [true; false; true] false)
    (mkFn [Nominal "A"; Nominal "B"; Nominal "C"] (Nominal "R")) [] false
  = Done [Nominal "A"; Nominal "C"].
Proof. reflexivity. Qed.

Example getSubsetParameterTypes_uncurried_example :
  getSubsetParameterTypes (mk [false; false; true; true] true)
    (mkFn [Nominal "A"; Nominal "B"; Nominal "C"; Nominal "Self"] (Nominal "R"))
    [] true
  = Done [Nominal "Self"; Nominal "C"].
Proof. reflexivity. Qed.

Example getLowered_function_example :
  getLowered (mk [true; false; true] false)
    (mkFn [Nominal "A"; Nominal "B"; Nominal "C"] (Nominal "R")) false
  = Done [true; false; true].
Proof. reflexivity. Qed.

Example getLowered_method_example :
  getLowered (mk [false; false; true; true] true)
    (mkFn [Nominal "Self"]
       (FunctionType [Nominal "A"; Nominal "B"; Nominal "C"] (Nominal "R")))
    false
  = Done [false; false; true; true].
Proof. reflexivity. Qed.

Example getLowered_uncurried_example :
  getLowered (mk [false; false; true; true] true)
    (mkFn [Nominal "A"; Nominal "B"; Nominal "C"; Nominal "Self"] (Nominal "R"))
    true
  = Done [false; false; true; true].
Proof. reflexivity. Qed.

End SourceExamples.

(** * Further properties of the code *)

(** ** The textual encoding, both ways *)

Section EncodingMore.
Import AutoDiffParameterIndices.

Lemma encode_flag_inj (b1 b2 : bool) : encode_flag b1 = encode_flag b2 -> b1 = b2.
Proof. by destruct b1, b2. Qed.

Lemma encode_flags_inj (v w : bitvec) :
  map encode_flag v = map encode_flag w -> v = w.
Proof.
  revert w. induction v as [|b v IH]; intros [|c w]; simpl; try done.
  intros [= Hb Hv]. f_equal; [by apply encode_flag_inj|by apply IH].
Qed.

Lemma encode_decode_flag (c : ascii) (b : bool) :
  decode_flag c = Some b -> encode_flag b = c.
Proof.
  unfold decode_flag. destruct (Ascii.eqb_spec c "S") as [->|_].
  - by intros [= <-].
  - destruct (Ascii.eqb_spec c "U") as [->|_]; [by intros [= <-]|done].
Qed.

Lemma encode_decode_flags (cs : list ascii) (bits : bitvec) :
  decode_flags cs = Some bits -> map encode_flag bits = cs.
Proof.
  revert bits. induction cs as [|c cs IH]; intros bits; [by intros [= <-]|].
  cbn [decode_flags]. destruct (decode_flag c) as [b|] eqn:Hc; [|done].
  destruct (decode_flags cs) as [bs|]; [|done].
  intros [= <-]. simpl. f_equal; [by apply encode_decode_flag|by apply IH].
Qed.

Lemma encode_decode_marker (c : ascii) (m : bool) :
  decode_marker c = Some m -> encode_marker m = c.
Proof.
  unfold decode_marker. destruct (Ascii.eqb_spec c "M") as [->|_].
  - by intros [= <-].
  - destruct (Ascii.eqb_spec c "F") as [->|_]; [by intros [= <-]|done].
Qed.

End EncodingMore.

(** X1. [getString] returns on every index set, with one character per bit
    after the marker, and two index sets with the same string are the same
    set: the encoding is injective. *)
Theorem getString_injective (x y : AutoDiffParameterIndices.t) :
  (exists s : list ascii,
     AutoDiffParameterIndices.getString x = Done s
     /\ length s = S (length (AutoDiffParameterIndices.indices x)))
  /\ (AutoDiffParameterIndices.getString x
      = AutoDiffParameterIndices.getString y -> x = y).
Proof.
  split.
  - eexists. split; [apply getString_spec|]. simpl. by rewrite length_map.
  - rewrite !getString_spec. destruct x as [v m], y as [w n].
    cbn [AutoDiffParameterIndices.indices AutoDiffParameterIndices.isMethodFlag].
    intros [= Hm Hv]. f_equal; [by apply encode_flags_inj|].
    by destruct m, n.
Qed.

Lemma getString_injective_witness :
  AutoDiffParameterIndices.getString (AutoDiffParameterIndices.mk [true] true)
  = AutoDiffParameterIndices.getString
      (AutoDiffParameterIndices.mk ([] ++ [true]) true)
  /\ AutoDiffParameterIndices.mk [true] true
     = AutoDiffParameterIndices.mk ([] ++ [true]) true.
Proof.
  assert (H : AutoDiffParameterIndices.getString
                (AutoDiffParameterIndices.mk [true] true)
              = AutoDiffParameterIndices.getString
                  (AutoDiffParameterIndices.mk ([] ++ [true]) true))
    by reflexivity.
  split; [exact H|].
  exact (proj2 (getString_injective _ _) H).
Defined.

(** X2. Decoding then printing is the identity: whenever the decoder accepts
    a string (of a length that fits an [unsigned]), [getString] of the set it
    returns is that very string. *)
Theorem create_of_string_getString
    (s : list ascii) (x : AutoDiffParameterIndices.t) :
  Z.of_nat (length s) <= U32.modulus ->
  AutoDiffParameterIndices.create_of_string s = Done (Some x) ->
  AutoDiffParameterIndices.getString x = Done s.
Proof.
  intros Hfit Hrun. rewrite create_of_string_spec in Hrun by done.
  injection Hrun as Hdec. rewrite getString_spec. f_equal.
  destruct s as [|c0 [|c1 cs]]; [done..|].
  change (decode (c0 :: c1 :: cs)) with
    (match decode_marker c0, decode_flags (c1 :: cs) with
     | Some isMethod, Some bits => Some (AutoDiffParameterIndices.mk bits isMethod)
     | _, _ => None
     end) in Hdec.
  destruct (decode_marker c0) as [m|] eqn:Hm; [|done].
  destruct (decode_flags (c1 :: cs)) as [bits|] eqn:Hf; [|done].
  injection Hdec as <-.
  cbn [AutoDiffParameterIndices.indices AutoDiffParameterIndices.isMethodFlag].
  f_equal; [by apply encode_decode_marker|by apply encode_decode_flags].
Qed.

Lemma create_of_string_getString_witness :
  Z.of_nat (length (list_ascii_of_string "FUS")) <= U32.modulus
  /\ AutoDiffParameterIndices.create_of_string (list_ascii_of_string "FUS")
     = Done (Some (AutoDiffParameterIndices.mk [false; true] false))
  /\ AutoDiffParameterIndices.getString
       (AutoDiffParameterIndices.mk [false; true] false)
     = Done (list_ascii_of_string "FUS").
Proof.
  assert (H1 : Z.of_nat (length (list_ascii_of_string "FUS")) <= U32.modulus)
    by (vm_compute; discriminate).
  assert (H2 : AutoDiffParameterIndices.create_of_string
                 (list_ascii_of_string "FUS")
               = Done (Some (AutoDiffParameterIndices.mk [false; true] false)))
    by reflexivity.
  split; [exact H1|]. split; [exact H2|].
  exact (create_of_string_getString _ _ H1 H2).
Defined.

(** ** Addressing without overflow *)

(** X3. For orders from 1 to 46341, where no product overflows, the offsets
    are strictly increasing in the order, the VJP slot of an order follows
    its JVP slot, and so two different (order, kind) pairs never share an
    offset. *)
Theorem offsets_distinct (order1 order2 : Z)
    (kind1 kind2 : AutoDiffAssociatedFunctionKind) :
  1 <= order1 <= 46341 -> 1 <= order2 <= 46341 ->
  (order1 < order2 ->
   autodiff.getOffsetForAutoDiffAssociatedFunction order1 kind1
   < autodiff.getOffsetForAutoDiffAssociatedFunction order2 kind2)
  /\ autodiff.getOffsetForAutoDiffAssociatedFunction order1 VJP
     = autodiff.getOffsetForAutoDiffAssociatedFunction order1 JVP + 1
  /\ (autodiff.getOffsetForAutoDiffAssociatedFunction order1 kind1
      = autodiff.getOffsetForAutoDiffAssociatedFunction order2 kind2 ->
      order1 = order2 /\ kind1 = kind2).
Proof.
  intros H1 H2.
  assert (Hexact : forall order kind, 1 <= order <= 46341 ->
    autodiff.getOffsetForAutoDiffAssociatedFunction order kind
    = (order - 1) * (order * 2) + rawValue kind).
  { intros order kind Ho. rewrite getOffset_mod. apply Z.mod_small.
    destruct kind; simpl; nia. }
  rewrite !Hexact by done. split; [|split].
  - intros Hlt. destruct kind1, kind2; simpl; nia.
  - simpl. lia.
  - intros Heq.
    assert (order1 = order2) as -> by (destruct kind1, kind2; simpl in Heq; nia).
    split; [done|]. destruct kind1, kind2; simpl in Heq; (done || lia).
Qed.

Lemma offsets_distinct_witness :
  1 <= 2 <= 46341 /\ 1 <= 3 <= 46341
  /\ autodiff.getOffsetForAutoDiffAssociatedFunction 2 VJP
     < autodiff.getOffsetForAutoDiffAssociatedFunction 3 JVP.
Proof.
  assert (H1 : 1 <= 2 <= 46341) by lia.
  assert (H2 : 1 <= 3 <= 46341) by lia.
  assert (H3 : 2 < 3) by lia.
  split; [exact H1|]. split; [exact H2|].
  exact (proj1 (offsets_distinct 2 3 VJP JVP H1 H2) H3).
Defined.

(** ** Equality and construction of [SILAutoDiffIndices] *)

Section IndicesMore.
Import SILAutoDiffIndices.

Lemma eqb_true_iff (a b : t) :
  eqb a b = true <->
  source a = source b /\ forall i, bit (parameters a) i <-> bit (parameters b) i.
Proof.
  destruct a as [sa pa], b as [sb pb]. unfold eqb. cbn [source parameters].
  destruct (Z.eqb_spec sa sb) as [->|Hne]; cbn [negb].
  - rewrite eqb_buffer_none. tauto.
  - split; [discriminate|]. intros [? _]. contradiction.
Qed.

Lemma bit_app_unset (v : bitvec) (n i : nat) :
  bit (v ++ replicate n false) i <-> bit v i.
Proof.
  unfold bit. destruct (decide (i < length v)%nat).
  - by rewrite lookup_app_l.
  - rewrite lookup_app_r, (lookup_ge_None_2 v i) by lia.
    split; [|done]. intros H. apply lookup_replicate in H as [? _]. done.
Qed.

(** Two strictly ascending lists with the same elements are the same list. *)
Lemma ascending_ext (l1 l2 : list Z) :
  ascending l1 -> ascending l2 -> (forall z, z ∈ l1 <-> z ∈ l2) -> l1 = l2.
Proof.
  revert l2. induction l1 as [|a l1 IH]; intros [|b l2] H1 H2 Hext.
  - done.
  - exfalso. apply (not_elem_of_nil b), Hext. by left.
  - exfalso. apply (not_elem_of_nil a), Hext. by left.
  - assert (a = b) as ->.
    { assert (Ha : a ∈ b :: l2) by (apply Hext; by left).
      assert (Hb : b ∈ a :: l1) by (apply Hext; by left).
      apply elem_of_cons in Ha as [->|Ha]; [done|].
      apply elem_of_cons in Hb as [->|Hb]; [done|].
      pose proof (ascending_head_lt _ _ _ H1 Hb).
      pose proof (ascending_head_lt _ _ _ H2 Ha). lia. }
    f_equal. apply IH.
    + apply ascending_cons in H1. tauto.
    + apply ascending_cons in H2. tauto.
    + intros z. split; intros Hz.
      * assert (Hz' : z ∈ b :: l2) by (apply Hext; by right).
        apply elem_of_cons in Hz' as [->|Hz']; [|done].
        pose proof (ascending_head_lt _ _ _ H1 Hz). lia.
      * assert (Hz' : z ∈ b :: l1) by (apply Hext; by right).
        apply elem_of_cons in Hz' as [->|Hz']; [|done].
        pose proof (ascending_head_lt _ _ _ H2 Hz). lia.
Qed.

(** What a constructor call that returned has built. *)
Lemma create_Done_inv (s : Z) (ps : list Z) (a : t) :
  Forall U32.in_range ps ->
  create s ps = Done a ->
  source a = s
  /\ ascending ps
  /\ (forall p, p ∈ ps -> 0 <= p < 2 ^ 31)
  /\ forall i, bit (parameters a) i <-> Z.of_nat i ∈ ps.
Proof.
  intros Hrange Hrun. destruct ps as [|p rest].
  { injection Hrun as <-. cbn [source parameters].
    split; [done|]. split; [done|]. split.
    - intros p Hp. by apply not_elem_of_nil in Hp.
    - intros i. unfold bit. rewrite lookup_nil. split; [done|].
      intros Hi. by apply not_elem_of_nil in Hi. }
  unfold create in Hrun.
  set (m := fold_left Z.max rest p) in Hrun.
  set (bits := SmallBitVector.resize [] (U32.add m 1)) in Hrun.
  destruct (set_ascending (p :: rest) (-1) bits) as [bits'|] eqn:Hloop;
    [|discriminate].
  cbn [bind] in Hrun. injection Hrun as <-. cbn [source parameters].
  destruct (set_ascending_returns_inv (p :: rest) (-1) bits) as [Hasc Hps];
    [lia|done|by exists bits'|].
  assert (Hps' : forall q, q ∈ p :: rest -> 0 <= q < 2 ^ 31).
  { intros q Hq. specialize (Hps q Hq). lia. }
  split; [done|]. split; [done|]. split; [done|].
  destruct (fold_left_max_ge rest p) as [Hpm Hrestm]. fold m in Hpm, Hrestm.
  pose proof (fold_left_max_elem rest p) as Hm. fold m in Hm.
  assert (Hm31 : 0 <= m < 2 ^ 31) by (apply Hps'; exact Hm).
  assert (Hsize : SmallBitVector.size bits = m + 1).
  { unfold SmallBitVector.size, bits. rewrite length_resize.
    unfold U32.add. rewrite wrap_small by (rewrite modulus_eq; lia). lia. }
  destruct (set_ascending_returns (p :: rest) (-1) bits)
    as (bits'' & Hrun' & _ & Hbits); [lia| |done|].
  { intros q Hq. specialize (Hps' q Hq).
    assert (q <= m) by (apply elem_of_cons in Hq as [->|Hq]; auto). lia. }
  rewrite Hloop in Hrun'. injection Hrun' as <-.
  intros i. rewrite Hbits. split; [|by right].
  intros [Hi|Hi]; [|done].
  apply bit_resize in Hi as [_ Hi]. unfold bit in Hi. by rewrite lookup_nil in Hi.
Qed.

End IndicesMore.

(** X4. [operator==] of [SILAutoDiffIndices] is an equivalence relation:
    reflexive, symmetric and transitive; and it does not see unset bits
    appended to the parameter vector. *)
Theorem SILAutoDiffIndices_eqb_equivalence :
  (forall a, SILAutoDiffIndices.eqb a a = true)
  /\ (forall a b, SILAutoDiffIndices.eqb a b = SILAutoDiffIndices.eqb b a)
  /\ (forall a b c,
        SILAutoDiffIndices.eqb a b = true ->
        SILAutoDiffIndices.eqb b c = true ->
        SILAutoDiffIndices.eqb a c = true)
  /\ (forall a n,
        SILAutoDiffIndices.eqb a
          (SILAutoDiffIndices.mk (SILAutoDiffIndices.source a)
             (SILAutoDiffIndices.parameters a ++ replicate n false))
        = true).
Proof.
  split; [|split; [|split]].
  - intros a. apply eqb_true_iff. tauto.
  - intros a b.
    destruct (SILAutoDiffIndices.eqb a b) eqn:Hab,
             (SILAutoDiffIndices.eqb b a) eqn:Hba; try done.
    + apply eqb_true_iff in Hab as [Hs Hb].
      assert (SILAutoDiffIndices.eqb b a = true) as E; [|congruence].
      apply eqb_true_iff. split; [done|]. intros i. by rewrite Hb.
    + apply eqb_true_iff in Hba as [Hs Hb].
      assert (SILAutoDiffIndices.eqb a b = true) as E; [|congruence].
      apply eqb_true_iff. split; [done|]. intros i. by rewrite Hb.
  - intros a b c Hab Hbc.
    apply eqb_true_iff in Hab as [Hs1 Hb1]. apply eqb_true_iff in Hbc as [Hs2 Hb2].
    apply eqb_true_iff. split; [congruence|]. intros i. by rewrite Hb1, Hb2.
  - intros a n. apply eqb_true_iff.
    cbn [SILAutoDiffIndices.source SILAutoDiffIndices.parameters].
    split; [done|]. intros i. by rewrite bit_app_unset.
Qed.

Lemma SILAutoDiffIndices_eqb_equivalence_witness :
  SILAutoDiffIndices.eqb (SILAutoDiffIndices.mk 1 [true])
    (SILAutoDiffIndices.mk 1 [true; false]) = true
  /\ SILAutoDiffIndices.eqb (SILAutoDiffIndices.mk 1 [true; false])
       (SILAutoDiffIndices.mk 1 [true; false; false]) = true
  /\ SILAutoDiffIndices.eqb (SILAutoDiffIndices.mk 1 [true])
       (SILAutoDiffIndices.mk 1 [true; false; false]) = true.
Proof.
  assert (H1 : SILAutoDiffIndices.eqb (SILAutoDiffIndices.mk 1 [true])
                 (SILAutoDiffIndices.mk 1 [true; false]) = true) by reflexivity.
  assert (H2 : SILAutoDiffIndices.eqb (SILAutoDiffIndices.mk 1 [true; false])
                 (SILAutoDiffIndices.mk 1 [true; false; false]) = true)
    by reflexivity.
  split; [exact H1|]. split; [exact H2|].
  exact (proj1 (proj2 (proj2 SILAutoDiffIndices_eqb_equivalence)) _ _ _ H1 H2).
Defined.

(** X5. On values built by the constructor, [operator==] is equality of the
    arguments: two constructor calls that return give equal values exactly
    when they were given the same [source] and the same list of indices (the
    empty list included). *)
Theorem SILAutoDiffIndices_create_eqb
    (s1 s2 : Z) (ps1 ps2 : list Z) (a b : SILAutoDiffIndices.t) :
  Forall U32.in_range ps1 -> Forall U32.in_range ps2 ->
  SILAutoDiffIndices.create s1 ps1 = Done a ->
  SILAutoDiffIndices.create s2 ps2 = Done b ->
  (SILAutoDiffIndices.eqb a b = true <-> s1 = s2 /\ ps1 = ps2).
Proof.
  intros Hr1 Hr2 Ha Hb.
  destruct (create_Done_inv _ _ _ Hr1 Ha) as (Hs1 & Hasc1 & _ & Hbits1).
  destruct (create_Done_inv _ _ _ Hr2 Hb) as (Hs2 & Hasc2 & _ & Hbits2).
  rewrite eqb_true_iff, Hs1, Hs2. split.
  - intros [-> Hbits]. split; [done|].
    apply ascending_ext; [done..|].
    assert (Hnn : forall ps, Forall U32.in_range ps -> forall z, z ∈ ps ->
              z = Z.of_nat (Z.to_nat z)).
    { intros ps Hps z Hz. rewrite Forall_forall in Hps.
      specialize (Hps z Hz). unfold U32.in_range in Hps. lia. }
    intros z. split; intros Hz.
    + pose proof (Hnn _ Hr1 z Hz) as Ez. rewrite Ez.
      apply Hbits2, Hbits, Hbits1. by rewrite <- Ez.
    + pose proof (Hnn _ Hr2 z Hz) as Ez. rewrite Ez.
      apply Hbits1, Hbits, Hbits2. by rewrite <- Ez.
  - intros [-> ->]. split; [done|]. intros i. by rewrite Hbits1, Hbits2.
Qed.

Lemma SILAutoDiffIndices_create_eqb_witness :
  Forall U32.in_range [0; 2] /\ Forall U32.in_range [0; 3]
  /\ SILAutoDiffIndices.create 1 [0; 2]
     = Done (SILAutoDiffIndices.mk 1 [true; false; true])
  /\ SILAutoDiffIndices.create 1 [0; 3]
     = Done (SILAutoDiffIndices.mk 1 [true; false; false; true])
  /\ (SILAutoDiffIndices.eqb (SILAutoDiffIndices.mk 1 [true; false; true])
        (SILAutoDiffIndices.mk 1 [true; false; false; true]) = true
      <-> 1 = 1 /\ [0; 2] = [0; 3]).
Proof.
  assert (H1 : Forall U32.in_range [0; 2]).
  { repeat (apply Forall_cons; split); try (by apply Forall_nil);
      unfold U32.in_range; rewrite modulus_eq; lia. }
  assert (H2 : Forall U32.in_range [0; 3]).
  { repeat (apply Forall_cons; split); try (by apply Forall_nil);
      unfold U32.in_range; rewrite modulus_eq; lia. }
  assert (H3 : SILAutoDiffIndices.create 1 [0; 2]
               = Done (SILAutoDiffIndices.mk 1 [true; false; true]))
    by reflexivity.
  assert (H4 : SILAutoDiffIndices.create 1 [0; 3]
               = Done (SILAutoDiffIndices.mk 1 [true; false; false; true]))
    by reflexivity.
  split; [exact H1|]. split; [exact H2|]. split; [exact H3|]. split; [exact H4|].
  exact (SILAutoDiffIndices_create_eqb _ _ _ _ _ _ H1 H2 H3 H4).
Defined.

(** ** The kind of an associated function, from its name *)

Lemma str_eqb_eq (s1 s2 : list ascii) : str_eqb s1 s2 = true <-> s1 = s2.
Proof.
  revert s2. induction s1 as [|c1 s1 IH]; intros [|c2 s2]; simpl; try done.
  rewrite andb_true_iff, IH, Ascii.eqb_eq. split.
  - by intros [-> ->].
  - by intros [= -> ->].
Qed.

(** X6. The string constructor of [AutoDiffAssociatedFunctionKind] returns
    the kind [k] exactly on the name of [k] ("jvp" for JVP, "vjp" for VJP, in
    lower case), so it reads each name back to its kind, and it dies on every
    other string. *)
Theorem AutoDiffAssociatedFunctionKind_of_string_spec (s : list ascii) :
  (forall kind,
     AutoDiffAssociatedFunctionKind_of_string s = Done kind
     <-> s = kind_name kind)
  /\ (s <> list_ascii_of_string "jvp" -> s <> list_ascii_of_string "vjp" ->
      aborts (AutoDiffAssociatedFunctionKind_of_string s)).
Proof.
  unfold AutoDiffAssociatedFunctionKind_of_string.
  destruct (str_eqb s (list_ascii_of_string "jvp")) eqn:Hj.
  { apply str_eqb_eq in Hj as ->. split; [|done].
    intros [|]; simpl; split; (done || discriminate). }
  destruct (str_eqb s (list_ascii_of_string "vjp")) eqn:Hv.
  { apply str_eqb_eq in Hv as ->. split; [|done].
    intros [|]; simpl; split; (done || discriminate). }
  assert (Hnj : s <> list_ascii_of_string "jvp").
  { intros E. apply str_eqb_eq in E. congruence. }
  assert (Hnv : s <> list_ascii_of_string "vjp").
  { intros E. apply str_eqb_eq in E. congruence. }
  split.
  - intros [|]; simpl; split; (done || discriminate).
  - intros _ _. by eexists.
Qed.

Lemma AutoDiffAssociatedFunctionKind_of_string_spec_witness :
  list_ascii_of_string "JVP" <> list_ascii_of_string "jvp"
  /\ list_ascii_of_string "JVP" <> list_ascii_of_string "vjp"
  /\ aborts (AutoDiffAssociatedFunctionKind_of_string
               (list_ascii_of_string "JVP")).
Proof.
  assert (H1 : list_ascii_of_string "JVP" <> list_ascii_of_string "jvp")
    by discriminate.
  assert (H2 : list_ascii_of_string "JVP" <> list_ascii_of_string "vjp")
    by discriminate.
  split; [exact H1|]. split; [exact H2|].
  exact (proj2 (AutoDiffAssociatedFunctionKind_of_string_spec _) H1 H2).
Defined.

(** ** [Differentiability] derived from a function type *)

Lemma set_all_make (n : Z) (t : bool) :
  SmallBitVector.set_all (SmallBitVector.make n t) = replicate (Z.to_nat n) true.
Proof.
  unfold SmallBitVector.set_all, SmallBitVector.make.
  induction (Z.to_nat n) as [|k IH]; [done|]. simpl. by rewrite IH.
Qed.

(** X7. [Differentiability] derived from a function type differentiates the
    single result with respect to every non-self parameter: without a self
    parameter the parameter vector has one set bit per parameter of the type;
    with one, it has one set bit per parameter of the result function type
    (the length of the outer parameter list is not looked at), and the
    construction dies when the result is not a function type. *)
Theorem Differentiability_of_type_spec
    (mode : AutoDiffMode) (type : AnyFunctionType) :
  Differentiability.of_type mode false type
  = Done (Differentiability.mk mode false
            (replicate (length (getParams type)) true) [true])
  /\ (forall params result,
        getResult type = FunctionType params result ->
        Differentiability.of_type mode true type
        = Done (Differentiability.mk mode true
                  (replicate (length params) true) [true]))
  /\ ((forall params result, getResult type <> FunctionType params result) ->
      Differentiability.of_type mode true type
      = Fatal "cast<Ty>() argument of incompatible type!").
Proof.
  unfold Differentiability.of_type. split; [|split].
  - cbn [bind]. rewrite !set_all_make. unfold getNumParams.
    by rewrite Nat2Z.id.
  - intros params result ->. cbn [castToAnyFunctionType bind].
    rewrite !set_all_make. unfold getNumParams. cbn [getParams].
    by rewrite Nat2Z.id.
  - intros Hnot. destruct (getResult type) as [n|es|ps r]; [done..|].
    by destruct (Hnot ps r).
Qed.

Lemma Differentiability_of_type_spec_witness :
  getResult
    (mkFn [Nominal "Self"; Nominal "X"]
       (FunctionType [Nominal "A"; Nominal "B"] (Nominal "R")))
  = FunctionType [Nominal "A"; Nominal "B"] (Nominal "R")
  /\ Differentiability.of_type Reverse true
       (mkFn [Nominal "Self"; Nominal "X"]
          (FunctionType [Nominal "A"; Nominal "B"] (Nominal "R")))
     = Done (Differentiability.mk Reverse true [true; true] [true]).
Proof.
  split; [reflexivity|].
  exact (proj1 (proj2 (Differentiability_of_type_spec Reverse
           (mkFn [Nominal "Self"; Nominal "X"]
              (FunctionType [Nominal "A"; Nominal "B"] (Nominal "R")))))
           _ _ eq_refl).
Defined.

(** ** Sets created from a shape *)

Section CreateMore.
Import AutoDiffParameterIndices.

(** The set that [create] returns on a shape whose receiver can be
    stripped. *)
Lemma create_replicate (functionType inner : AnyFunctionType)
    (isMethod setAllParams : bool) :
  strippedShape functionType isMethod = Some inner ->
  getNumParams inner + (if isMethod then 1 else 0) < U32.modulus ->
  create functionType isMethod setAllParams
  = Done (mk (replicate (length (getParams inner)
                         + (if isMethod then 1 else 0))%nat setAllParams)
             isMethod).
Proof.
  intros Hinner Hfit. apply unwrapSelfParameter_Done in Hinner.
  unfold create. rewrite Hinner. cbn [bind]. f_equal.
  unfold U32.add. rewrite wrap_small
    by (unfold getNumParams in *; destruct isMethod; lia).
  unfold make. f_equal.
  replace (length (getParams inner) + (if isMethod then 1 else 0))%nat
    with (Z.to_nat (getNumParams inner + (if isMethod then 1 else 0)))
    by (unfold getNumParams; destruct isMethod; lia).
  destruct setAllParams; [apply set_all_make|done].
Qed.

Lemma getString_replicate (n : nat) (b m : bool) :
  getString (mk (replicate n b) m)
  = Done (encode_marker m :: replicate n (encode_flag b)).
Proof.
  rewrite getString_spec. cbn [indices isMethodFlag]. do 2 f_equal.
  induction n as [|n IH]; [done|]. simpl. by rewrite IH.
Qed.

End CreateMore.

(** X8. A set created from a shape whose receiver can be stripped satisfies
    the invariant of the data model: it is valid, its
    [getNumNonSelfParameters] is the parameter count of the stripped shape,
    and [getString] prints it as the marker followed by one flag per
    parameter (and one for the receiver of a method), all 'S' or all 'U'. *)
Theorem create_valid (functionType inner : AnyFunctionType)
    (isMethod setAllParams : bool) :
  strippedShape functionType isMethod = Some inner ->
  getNumParams inner + (if isMethod then 1 else 0) < U32.modulus ->
  exists x : AutoDiffParameterIndices.t,
    AutoDiffParameterIndices.create functionType isMethod setAllParams = Done x
    /\ valid x
    /\ AutoDiffParameterIndices.getNumNonSelfParameters x = getNumParams inner
    /\ AutoDiffParameterIndices.getString x
       = Done (encode_marker isMethod
               :: replicate (length (getParams inner)
                             + (if isMethod then 1 else 0))%nat
                    (encode_flag setAllParams)).
Proof.
  intros Hinner Hfit. eexists.
  split; [by apply create_replicate|].
  assert (Hvalid : valid
    (AutoDiffParameterIndices.mk
       (replicate (length (getParams inner) + (if isMethod then 1 else 0))%nat
          setAllParams) isMethod)).
  { unfold valid.
    cbn [AutoDiffParameterIndices.indices AutoDiffParameterIndices.isMethodFlag].
    rewrite length_replicate. unfold getNumParams in Hfit.
    split; [intros ->; lia|destruct isMethod; lia]. }
  split; [exact Hvalid|]. split; [|apply getString_replicate].
  destruct (getNumNonSelfParameters_valid _ Hvalid) as [-> _].
  cbn [AutoDiffParameterIndices.indices AutoDiffParameterIndices.isMethodFlag].
  rewrite length_replicate. unfold getNumParams. destruct isMethod; lia.
Qed.

Lemma create_valid_witness :
  strippedShape
    (mkFn [Nominal "Self"]
       (FunctionType [Nominal "A"; Nominal "B"] (Nominal "R"))) true
  = Some (mkFn [Nominal "A"; Nominal "B"] (Nominal "R"))
  /\ getNumParams (mkFn [Nominal "A"; Nominal "B"] (Nominal "R")) + 1
     < U32.modulus
  /\ exists x : AutoDiffParameterIndices.t,
       AutoDiffParameterIndices.create
         (mkFn [Nominal "Self"]
            (FunctionType [Nominal "A"; Nominal "B"] (Nominal "R")))
         true false = Done x
       /\ valid x
       /\ AutoDiffParameterIndices.getNumNonSelfParameters x = 2
       /\ AutoDiffParameterIndices.getString x
          = Done (list_ascii_of_string "MUUU").
Proof.
  assert (H1 : strippedShape
    (mkFn [Nominal "Self"]
       (FunctionType [Nominal "A"; Nominal "B"] (Nominal "R"))) true
    = Some (mkFn [Nominal "A"; Nominal "B"] (Nominal "R"))) by reflexivity.
  assert (H2 : getNumParams (mkFn [Nominal "A"; Nominal "B"] (Nominal "R")) + 1
               < U32.modulus) by reflexivity.
  split; [exact H1|]. split; [exact H2|].
  exact (create_valid _ _ true false H1 H2).
Defined.

(** ** How the setters compose *)

Section SettersMore.
Import AutoDiffParameterIndices.

Lemma getNumNonSelfParameters_length (v w : bitvec) (m : bool) :
  length v = length w ->
  getNumNonSelfParameters (mk v m) = getNumNonSelfParameters (mk w m).
Proof.
  intros H. unfold getNumNonSelfParameters, SmallBitVector.size.
  cbn [indices isMethodFlag]. by rewrite H.
Qed.

(** [setNonSelfParameter] in terms of its two checks. *)
Lemma setNonSelfParameter_unfold (v : bitvec) (m : bool) (i : Z) :
  setNonSelfParameter (mk v m) i
  = if i <? getNumNonSelfParameters (mk v m) then
      if SmallBitVector.in_bounds v i then Done (mk (<[Z.to_nat i := true]> v) m)
      else Fatal "SmallBitVector::set: Idx out of range"
    else Fatal "paramIndex out of bounds".
Proof.
  unfold setNonSelfParameter, SmallBitVector.set. cbn [indices isMethodFlag].
  destruct (i <? _); [|done]. by destruct (SmallBitVector.in_bounds v i).
Qed.

Lemma in_bounds_insert (v : bitvec) (n : nat) (b : bool) (i : Z) :
  SmallBitVector.in_bounds (<[n := b]> v) i = SmallBitVector.in_bounds v i.
Proof.
  unfold SmallBitVector.in_bounds, SmallBitVector.size.
  by rewrite length_insert.
Qed.

End SettersMore.

(** X9. On a valid set, adding parameters does not depend on the order and
    is idempotent: [setNonSelfParameter(i)] then [setNonSelfParameter(j)] has
    the outcome of [j] then [i] (the same set, or the same fatal error), and
    adding [i] twice is adding it once. *)
Theorem setNonSelfParameter_commute
    (x : AutoDiffParameterIndices.t) (i j : Z) :
  valid x -> 0 <= i -> 0 <= j ->
  (let* y := AutoDiffParameterIndices.setNonSelfParameter x i in
   AutoDiffParameterIndices.setNonSelfParameter y j)
  = (let* y := AutoDiffParameterIndices.setNonSelfParameter x j in
     AutoDiffParameterIndices.setNonSelfParameter y i)
  /\ (let* y := AutoDiffParameterIndices.setNonSelfParameter x i in
      AutoDiffParameterIndices.setNonSelfParameter y i)
     = AutoDiffParameterIndices.setNonSelfParameter x i.
Proof.
  intros Hvalid Hi0 Hj0.
  destruct (getNumNonSelfParameters_valid x Hvalid) as [_ Hbound].
  destruct x as [v m].
  cbn [AutoDiffParameterIndices.indices] in Hbound.
  assert (Hin : forall k, 0 <= k ->
    (k <? AutoDiffParameterIndices.getNumNonSelfParameters
            (AutoDiffParameterIndices.mk v m)) = true ->
    SmallBitVector.in_bounds v k = true).
  { intros k Hk0 Hk. apply Z.ltb_lt in Hk.
    unfold SmallBitVector.in_bounds, SmallBitVector.size.
    apply andb_true_iff. split; [apply Z.leb_le|apply Z.ltb_lt]; lia. }
  assert (Hnum : forall n,
    AutoDiffParameterIndices.getNumNonSelfParameters
      (AutoDiffParameterIndices.mk (<[n := true]> v) m)
    = AutoDiffParameterIndices.getNumNonSelfParameters
        (AutoDiffParameterIndices.mk v m)).
  { intros n. apply getNumNonSelfParameters_length, length_insert. }
  rewrite !(setNonSelfParameter_unfold v).
  destruct (i <? _) eqn:Hi, (j <? _) eqn:Hj;
    rewrite ?(Hin i Hi0 Hi), ?(Hin j Hj0 Hj);
    cbn [bind];
    rewrite ?setNonSelfParameter_unfold, ?Hnum, ?in_bounds_insert,
      ?Hi, ?Hj, ?(Hin i Hi0 Hi), ?(Hin j Hj0 Hj);
    try (split; reflexivity).
  all: split; [|by rewrite ?list_insert_insert_eq].
  all: try reflexivity.
  do 2 f_equal.
  destruct (decide (Z.to_nat j = Z.to_nat i)) as [->|Hne]; [done|].
  by apply list_insert_insert_ne.
Qed.

Lemma setNonSelfParameter_commute_witness :
  valid (AutoDiffParameterIndices.mk [false; false; false] true)
  /\ 0 <= 0 /\ 0 <= 1
  /\ (let* y :=
        AutoDiffParameterIndices.setNonSelfParameter
          (AutoDiffParameterIndices.mk [false; false; false] true) 0 in
      AutoDiffParameterIndices.setNonSelfParameter y 1)
     = (let* y :=
          AutoDiffParameterIndices.setNonSelfParameter
            (AutoDiffParameterIndices.mk [false; false; false] true) 1 in
        AutoDiffParameterIndices.setNonSelfParameter y 0).
Proof.
  assert (H : valid (AutoDiffParameterIndices.mk [false; false; false] true)).
  { split; [intros _; simpl; lia|reflexivity]. }
  assert (H0 : 0 <= 0) by lia.
  assert (H1 : 0 <= 1) by lia.
  split; [exact H|]. split; [exact H0|]. split; [exact H1|].
  exact (proj1 (setNonSelfParameter_commute _ 0 1 H H0 H1)).
Defined.

(** X10. [setAllNonSelfParameters] absorbs an earlier
    [setNonSelfParameter]: once [setNonSelfParameter(i)] has returned,
    setting all the non-self parameters gives what it gives on the original
    set. *)
Theorem setAllNonSelfParameters_absorbs
    (x y : AutoDiffParameterIndices.t) (i : Z) :
  AutoDiffParameterIndices.setNonSelfParameter x i = Done y ->
  AutoDiffParameterIndices.setAllNonSelfParameters y
  = AutoDiffParameterIndices.setAllNonSelfParameters x.
Proof.
  destruct x as [v m]. rewrite setNonSelfParameter_unfold.
  destruct (Z.ltb_spec i
    (AutoDiffParameterIndices.getNumNonSelfParameters
       (AutoDiffParameterIndices.mk v m))) as [Hi|]; [|discriminate].
  destruct (SmallBitVector.in_bounds v i) eqn:Bi; [|discriminate].
  intros [= <-]. unfold AutoDiffParameterIndices.setAllNonSelfParameters.
  cbn [AutoDiffParameterIndices.indices AutoDiffParameterIndices.isMethodFlag].
  rewrite (getNumNonSelfParameters_length (<[Z.to_nat i:=true]> v) v m)
    by apply length_insert.
  set (n := AutoDiffParameterIndices.getNumNonSelfParameters _) in *.
  unfold SmallBitVector.set_range, SmallBitVector.size.
  rewrite length_insert.
  destruct (negb (0 <=? n)); [done|].
  destruct (negb (n <=? Z.of_nat (length v))); [done|].
  cbn [bind].
  unfold SmallBitVector.in_bounds in Bi. apply andb_true_iff in Bi as [B0 _].
  apply Z.leb_le in B0. by rewrite drop_insert_lt by lia.
Qed.

Lemma setAllNonSelfParameters_absorbs_witness :
  AutoDiffParameterIndices.setNonSelfParameter
    (AutoDiffParameterIndices.mk [false; false; false] true) 1
  = Done (AutoDiffParameterIndices.mk [false; true; false] true)
  /\ AutoDiffParameterIndices.setAllNonSelfParameters
       (AutoDiffParameterIndices.mk [false; true; false] true)
     = AutoDiffParameterIndices.setAllNonSelfParameters
         (AutoDiffParameterIndices.mk [false; false; false] true).
Proof.
  assert (H : AutoDiffParameterIndices.setNonSelfParameter
                (AutoDiffParameterIndices.mk [false; false; false] true) 1
              = Done (AutoDiffParameterIndices.mk [false; true; false] true))
    by reflexivity.
  split; [exact H|].
  exact (setAllNonSelfParameters_absorbs _ _ _ H).
Defined.

(** X11. Selecting everything after the fact is creating with everything
    selected: on a shape whose receiver can be stripped, creating an empty
    set and then calling [setAllNonSelfParameters] (followed, for a method,
    by [setSelfParameter]) gives the set that [create] returns with
    [setAllParams]. *)
Theorem create_then_set_all (functionType inner : AnyFunctionType) :
  (strippedShape functionType false = Some inner ->
   getNumParams inner < U32.modulus ->
   (let* x := AutoDiffParameterIndices.create functionType false false in
    AutoDiffParameterIndices.setAllNonSelfParameters x)
   = AutoDiffParameterIndices.create functionType false true)
  /\ (strippedShape functionType true = Some inner ->
      getNumParams inner + 1 < U32.modulus ->
      (let* x := AutoDiffParameterIndices.create functionType true false in
       let* x := AutoDiffParameterIndices.setAllNonSelfParameters x in
       AutoDiffParameterIndices.setSelfParameter x)
      = AutoDiffParameterIndices.create functionType true true).
Proof.
  split; intros Hinner Hfit.
  - rewrite !(create_replicate _ inner) by (done || lia). cbn [bind].
    unfold AutoDiffParameterIndices.setAllNonSelfParameters.
    set (x := AutoDiffParameterIndices.mk _ false).
    assert (Hvalid : valid x).
    { unfold valid, x, getNumParams in *.
      cbn [AutoDiffParameterIndices.indices AutoDiffParameterIndices.isMethodFlag].
      rewrite length_replicate. split; [done|lia]. }
    destruct (getNumNonSelfParameters_valid x Hvalid) as [-> _].
    unfold x.
    cbn [AutoDiffParameterIndices.indices AutoDiffParameterIndices.isMethodFlag].
    rewrite length_replicate, Nat.add_0_r, Z.sub_0_r.
    rewrite set_range_Done by (rewrite length_replicate; lia).
    cbn [bind]. do 2 f_equal. change (Z.to_nat 0) with 0%nat.
    rewrite take_0, Nat2Z.id, Nat.sub_0_r, drop_replicate, Nat.sub_diag.
    simpl. by rewrite app_nil_r.
  - rewrite !(create_replicate _ inner) by (done || lia). cbn [bind].
    unfold AutoDiffParameterIndices.setAllNonSelfParameters.
    set (x := AutoDiffParameterIndices.mk _ true).
    assert (Hvalid : valid x).
    { unfold valid, x, getNumParams in *.
      cbn [AutoDiffParameterIndices.indices AutoDiffParameterIndices.isMethodFlag].
      rewrite length_replicate. split; [lia|lia]. }
    destruct (getNumNonSelfParameters_valid x Hvalid) as [-> _].
    unfold x.
    cbn [AutoDiffParameterIndices.indices AutoDiffParameterIndices.isMethodFlag].
    rewrite length_replicate.
    set (n := length (getParams inner)).
    rewrite set_range_Done by (rewrite length_replicate; lia).
    cbn [bind]. change (Z.to_nat 0) with 0%nat.
    replace (Z.to_nat (Z.of_nat (n + 1) - 1)) with n by lia.
    rewrite take_0, Nat.sub_0_r, drop_replicate.
    replace (n + 1 - n)%nat with 1%nat by lia. cbn [app replicate].
    unfold AutoDiffParameterIndices.setSelfParameter.
    cbn [AutoDiffParameterIndices.indices AutoDiffParameterIndices.isMethodFlag].
    unfold SmallBitVector.size. rewrite length_app, length_replicate.
    cbn [length]. unfold U32.sub.
    rewrite wrap_small by (unfold getNumParams in Hfit; fold n in Hfit; lia).
    rewrite set_in_bounds
      by (unfold SmallBitVector.size; rewrite length_app, length_replicate;
          simpl; lia).
    cbn [bind]. do 2 f_equal.
    replace (Z.to_nat (Z.of_nat (n + 1) - 1)) with (length (replicate n true) + 0)%nat
      by (rewrite length_replicate; lia).
    rewrite insert_app_r. cbn. by rewrite replicate_add.
Qed.

Lemma create_then_set_all_witness :
  strippedShape
    (mkFn [Nominal "Self"]
       (FunctionType [Nominal "A"; Nominal "B"] (Nominal "R"))) true
  = Some (mkFn [Nominal "A"; Nominal "B"] (Nominal "R"))
  /\ getNumParams (mkFn [Nominal "A"; Nominal "B"] (Nominal "R")) + 1
     < U32.modulus
  /\ (let* x :=
        AutoDiffParameterIndices.create
          (mkFn [Nominal "Self"]
             (FunctionType [Nominal "A"; Nominal "B"] (Nominal "R")))
          true false in
      let* x := AutoDiffParameterIndices.setAllNonSelfParameters x in
      AutoDiffParameterIndices.setSelfParameter x)
     = AutoDiffParameterIndices.create
         (mkFn [Nominal "Self"]
            (FunctionType [Nominal "A"; Nominal "B"] (Nominal "R")))
         true true.
Proof.
  assert (H1 : strippedShape
    (mkFn [Nominal "Self"]
       (FunctionType [Nominal "A"; Nominal "B"] (Nominal "R"))) true
    = Some (mkFn [Nominal "A"; Nominal "B"] (Nominal "R"))) by reflexivity.
  assert (H2 : getNumParams (mkFn [Nominal "A"; Nominal "B"] (Nominal "R")) + 1
               < U32.modulus) by reflexivity.
  split; [exact H1|]. split; [exact H2|].
  exact (proj2 (create_then_set_all _ _) H1 H2).
Defined.

(** ** The selected types, for functions and for uncurried methods *)

Section SubsetTypesMore.
Import AutoDiffParameterIndices.

Lemma at_index_out {A} (l : list A) (i : Z) msg :
  Z.of_nat (length l) <= i -> at_index l i msg = Fatal msg.
Proof.
  intros H. unfold at_index.
  replace (i <? Z.of_nat (length l)) with false
    by (symmetry; apply Z.ltb_ge; lia).
  by rewrite andb_false_r.
Qed.

Lemma at_index_app_l {A} (l k : list A) (i : Z) msg :
  i < Z.of_nat (length l) -> at_index (l ++ k) i msg = at_index l i msg.
Proof.
  intros Hi. unfold at_index. destruct (Z.leb_spec 0 i) as [H0|]; [|done].
  rewrite length_app.
  destruct (Z.ltb_spec i (Z.of_nat (length l))); [|lia].
  destruct (Z.ltb_spec i (Z.of_nat (length l + length k))); [|lia].
  cbn [andb]. by rewrite lookup_app_l by lia.
Qed.

(** The loop dies on the first parameter for which the set has no bit. *)
Lemma push_selected_overrun (x : t) (functionType : AnyFunctionType)
    (irest ipre : bitvec) (rest pre : list Ty) (paramTypes : list Ty) :
  getParams functionType = pre ++ rest ->
  indices x = ipre ++ irest ->
  length ipre = length pre ->
  (length irest < length rest)%nat ->
  push_selected x functionType
    (seqZ (Z.of_nat (length pre)) (Z.of_nat (length rest))) paramTypes
  = Fatal "Out-of-bounds Bit access.".
Proof.
  revert ipre rest pre paramTypes.
  induction irest as [|b irest IH]; intros ipre rest pre paramTypes Hps Hbits Hlen Hlt.
  - destruct rest as [|p rest]; [simpl in Hlt; lia|].
    cbn [length]. rewrite range_S. cbn [push_selected].
    unfold SmallBitVector.get. rewrite at_index_out; [done|].
    rewrite Hbits, app_nil_r. lia.
  - destruct rest as [|p rest]; [simpl in Hlt; lia|].
    cbn [length]. rewrite range_S. cbn [push_selected].
    rewrite (get_lookup _ _ b)
      by (rewrite Hbits, <- Hlen; apply list_lookup_middle, eq_refl).
    cbn [bind].
    assert (Hnext : forall out,
      push_selected x functionType
        (seqZ (Z.of_nat (length pre) + 1) (Z.of_nat (length rest))) out
      = Fatal "Out-of-bounds Bit access.").
    { intros out.
      replace (Z.of_nat (length pre) + 1) with (Z.of_nat (length (pre ++ [p])))
        by (rewrite length_app; simpl; lia).
      apply (IH (ipre ++ [b]) rest (pre ++ [p])).
      - by rewrite <- app_assoc.
      - by rewrite <- app_assoc.
      - rewrite !length_app. simpl. lia.
      - simpl in Hlt. lia. }
    destruct b; [|apply Hnext].
    unfold getParamType.
    rewrite (at_index_Done _ _ p)
      by (rewrite Hps; apply list_lookup_middle, eq_refl).
    cbn [bind]. apply Hnext.
Qed.

(** The loop reads the function type only at the indices it visits. *)
Lemma push_selected_ext (x : t) (ft1 ft2 : AnyFunctionType)
    (idxs : list Z) (paramTypes : list Ty) :
  (forall i, i ∈ idxs -> getParamType ft1 i = getParamType ft2 i) ->
  push_selected x ft1 idxs paramTypes = push_selected x ft2 idxs paramTypes.
Proof.
  revert paramTypes. induction idxs as [|i idxs IH]; intros paramTypes Hext;
    [done|].
  cbn [push_selected]. rewrite (Hext i) by (by left).
  destruct (SmallBitVector.get (indices x) i) as [[]|]; cbn [bind]; [|by apply IH; intros; apply Hext; right|done].
  destruct (getParamType ft2 i); cbn [bind]; [|done].
  apply IH. intros k Hk. apply Hext. by right.
Qed.

End SubsetTypesMore.

(** X12. For a set that is not a method set, [getSubsetParameterTypes]
    (with either value of [selfUncurried]) pushes, after what [paramTypes]
    already holds, the types of the selected parameters in ascending order,
    provided the set has a bit for every parameter of the shape; when the
    set has fewer bits than the shape has parameters it dies on an
    out-of-bounds bit access. *)
Theorem getSubsetParameterTypes_function
    (x : AutoDiffParameterIndices.t) (functionType : AnyFunctionType)
    (paramTypes : list Ty) (selfUncurried : bool) :
  AutoDiffParameterIndices.isMethodFlag x = false ->
  ((length (getParams functionType)
    <= length (AutoDiffParameterIndices.indices x))%nat ->
   AutoDiffParameterIndices.getSubsetParameterTypes x functionType paramTypes
     selfUncurried
   = Done (paramTypes
           ++ selectedTypes (getParams functionType)
                (AutoDiffParameterIndices.indices x)))
  /\ ((length (AutoDiffParameterIndices.indices x)
       < length (getParams functionType))%nat ->
      AutoDiffParameterIndices.getSubsetParameterTypes x functionType
        paramTypes selfUncurried
      = Fatal "Out-of-bounds Bit access.").
Proof.
  intros Hm.
  assert (Hrun :
    AutoDiffParameterIndices.getSubsetParameterTypes x functionType paramTypes
      selfUncurried
    = AutoDiffParameterIndices.push_selected x functionType
        (range (getNumParams functionType)) paramTypes).
  { unfold AutoDiffParameterIndices.getSubsetParameterTypes,
      AutoDiffParameterIndices.selfSelected, unwrapSelfParameter.
    rewrite Hm, andb_false_r. reflexivity. }
  rewrite Hrun. split; intros Hlen.
  - by apply (push_selected_spec x functionType (getParams functionType) []
               (AutoDiffParameterIndices.indices x) [] paramTypes).
  - by apply (push_selected_overrun x functionType
               (AutoDiffParameterIndices.indices x) []
               (getParams functionType) [] paramTypes).
Qed.

Lemma getSubsetParameterTypes_function_witness :
  AutoDiffParameterIndices.isMethodFlag
    (AutoDiffParameterIndices.mk [true] false) = false
  /\ (length (AutoDiffParameterIndices.indices
                (AutoDiffParameterIndices.mk [true] false))
      < length (getParams (mkFn [Nominal "A"; Nominal "B"] (Nominal "R"))))%nat
  /\ AutoDiffParameterIndices.getSubsetParameterTypes
       (AutoDiffParameterIndices.mk [true] false)
       (mkFn [Nominal "A"; Nominal "B"] (Nominal "R")) [] false
     = Fatal "Out-of-bounds Bit access.".
Proof.
  assert (H1 : AutoDiffParameterIndices.isMethodFlag
                 (AutoDiffParameterIndices.mk [true] false) = false)
    by reflexivity.
  assert (H2 : (length (AutoDiffParameterIndices.indices
                          (AutoDiffParameterIndices.mk [true] false))
                < length (getParams
                            (mkFn [Nominal "A"; Nominal "B"] (Nominal "R"))))%nat)
    by (simpl; lia).
  split; [exact H1|]. split; [exact H2|].
  exact (proj2 (getSubsetParameterTypes_function _ _ [] false H1) H2).
Defined.

(** X13. For a method set, the curried and the uncurried shape of the same
    method give the same outcome: [getSubsetParameterTypes] on
    [(Self) -> (params) -> R] with [selfUncurried = false] is
    [getSubsetParameterTypes] on [(params, Self) -> R] with
    [selfUncurried = true], as a result or as a fatal error. *)
Theorem getSubsetParameterTypes_uncurried
    (x : AutoDiffParameterIndices.t) (self : Ty) (params : list Ty)
    (result1 result2 : Ty) (paramTypes : list Ty) :
  AutoDiffParameterIndices.isMethodFlag x = true ->
  Z.of_nat (length params) < U32.modulus ->
  AutoDiffParameterIndices.getSubsetParameterTypes x
    (mkFn [self] (FunctionType params result1)) paramTypes false
  = AutoDiffParameterIndices.getSubsetParameterTypes x
      (mkFn (params ++ [self]) result2) paramTypes true.
Proof.
  intros Hm Hfit.
  unfold AutoDiffParameterIndices.getSubsetParameterTypes.
  rewrite Hm. cbn [andb]. unfold unwrapSelfParameter.
  change (getNumParams (mkFn [self] (FunctionType params result1)) =? 1)
    with true.
  cbn [getResult castToAnyFunctionType bind].
  assert (Hn : U32.sub (getNumParams (mkFn (params ++ [self]) result2)) 1
               = Z.of_nat (length params)).
  { unfold U32.sub, getNumParams. cbn [getParams].
    rewrite length_app. cbn [length]. rewrite wrap_small by lia. lia. }
  rewrite Hn.
  assert (Hself : getParamType (mkFn (params ++ [self]) result2)
                    (Z.of_nat (length params)) = Done self).
  { unfold getParamType. cbn [getParams].
    apply at_index_Done, list_lookup_middle, eq_refl. }
  assert (Hself0 : getParamType (mkFn [self] (FunctionType params result1)) 0
                   = Done self) by reflexivity.
  rewrite Hself, Hself0.
  assert (Hloop : forall out,
    AutoDiffParameterIndices.push_selected x (mkFn params result1)
      (range (getNumParams (mkFn params result1))) out
    = AutoDiffParameterIndices.push_selected x
        (mkFn (params ++ [self]) result2)
        (range (Z.of_nat (length params))) out).
  { intros out. apply push_selected_ext. intros i Hi.
    apply elem_of_seqZ in Hi. unfold getParamType, getNumParams in *.
    cbn [getParams] in *. symmetry. apply at_index_app_l. lia. }
  destruct (AutoDiffParameterIndices.selfSelected x) as [[]|]; cbn [bind];
    [apply Hloop|apply Hloop|done].
Qed.

Lemma getSubsetParameterTypes_uncurried_witness :
  AutoDiffParameterIndices.isMethodFlag
    (AutoDiffParameterIndices.mk [true; false; true] true) = true
  /\ Z.of_nat (length [Nominal "A"; Nominal "B"]) < U32.modulus
  /\ AutoDiffParameterIndices.getSubsetParameterTypes
       (AutoDiffParameterIndices.mk [true; false; true] true)
       (mkFn [Nominal "Self"]
          (FunctionType [Nominal "A"; Nominal "B"] (Nominal "R")))
       [] false
     = AutoDiffParameterIndices.getSubsetParameterTypes
         (AutoDiffParameterIndices.mk [true; false; true] true)
         (mkFn ([Nominal "A"; Nominal "B"] ++ [Nominal "Self"]) (Nominal "R"))
         [] true.
Proof.
  split; [reflexivity|]. split; [reflexivity|].
  exact (getSubsetParameterTypes_uncurried
           (AutoDiffParameterIndices.mk [true; false; true] true)
           (Nominal "Self") [Nominal "A"; Nominal "B"] (Nominal "R")
           (Nominal "R") [] eq_refl eq_refl).
Defined.

(** ** Flattening and lowering, further *)

Section LoweringMore.
Import AutoDiffParameterIndices.

Lemma wrap_add_wrap (a b : Z) :
  U32.add (U32.wrap a) (U32.wrap b) = U32.wrap (a + b).
Proof.
  unfold U32.add, U32.wrap, U32.modulus. symmetry. apply Z.add_mod. lia.
Qed.

(** Whatever the width, the count is the flattened width modulo [2^32]. *)
Lemma count_wrap (type : Ty) :
  countNumFlattenedElementTypes type
  = U32.wrap (Z.of_nat (flattenedWidth type)).
Proof.
  induction type as [name|elements IH|params result _] using Ty_nested_ind;
    [done| |done].
  rewrite count_tuple, flattenedWidth_tuple.
  change 0 with (U32.wrap (Z.of_nat 0)) at 1.
  rewrite <- (Nat.add_0_l (sum_list _)).
  generalize 0%nat as acc.
  induction elements as [|e elements IHes]; intros acc.
  - simpl. do 2 f_equal. lia.
  - apply Forall_cons in IH as [He IH].
    cbn [map fold_left]. rewrite sum_list_cons.
    rewrite He, wrap_add_wrap, <- Nat2Z.inj_add, IHes by done.
    do 2 f_equal. lia.
Qed.





Lemma loweredBits_leaves (params : list Ty) (bits : bitvec) :
  Forall isLeaf params -> length bits = length params ->
  loweredBits (map flattenedWidth params) bits = bits.
Proof.
  revert bits. induction params as [|p params IH]; intros bits Hleaf Hlen.
  - by destruct bits.
  - destruct bits as [|b bits]; [done|].
    apply Forall_cons in Hleaf as [Hp Hleaf].
    cbn [map loweredBits head tail default].
    rewrite IH by (simpl in Hlen; done || lia).
    by destruct p.
Qed.

Lemma sum_leaves (params : list Ty) :
  Forall isLeaf params -> sum_list (map flattenedWidth params) = length params.
Proof.
  induction 1 as [|p params Hp _ IH]; [done|].
  cbn [map length]. rewrite sum_list_cons, IH. by destruct p.
Qed.




End LoweringMore.

(** X14. [countNumFlattenedElementTypes] computes the flattened width of a
    type in [unsigned] arithmetic (the width modulo [2^32]), and so it does
    not see how tuples are nested: a tuple counts as much as the tuple
    obtained by splicing the elements of one of its tuple elements in
    place. *)
Theorem countNumFlattenedElementTypes_flatten :
  (forall type : Ty,
     countNumFlattenedElementTypes type
     = U32.wrap (Z.of_nat (flattenedWidth type)))
  /\ (forall xs ys zs : list Ty,
        countNumFlattenedElementTypes (TupleType (xs ++ TupleType ys :: zs))
        = countNumFlattenedElementTypes (TupleType (xs ++ ys ++ zs))).
Proof.
  split; [exact count_wrap|].
  intros xs ys zs. rewrite !count_wrap. do 2 f_equal.
  rewrite !flattenedWidth_tuple, !map_app. cbn [map].
  rewrite !sum_list_with_app, sum_list_cons, flattenedWidth_tuple. lia.
Qed.

(** X15. When no logical parameter is a tuple, lowering changes nothing:
    for an index set with one bit per logical parameter, [getLowered] returns
    the bit-vector of the set itself. *)
Theorem getLowered_leaves
    (x : AutoDiffParameterIndices.t) (functionType : AnyFunctionType)
    (selfUncurried : bool) (params : list Ty) :
  logicalParameters functionType
    (AutoDiffParameterIndices.isMethodFlag x) selfUncurried = Some params ->
  Forall isLeaf params ->
  length (AutoDiffParameterIndices.indices x) = length params ->
  Z.of_nat (length params) < U32.modulus ->
  AutoDiffParameterIndices.getLowered x functionType selfUncurried
  = Done (AutoDiffParameterIndices.indices x).
Proof.
  intros Hps Hleaf Hlen Hfit.
  rewrite (getLowered_loweredBits x functionType selfUncurried params);
    [|done|lia|by rewrite sum_leaves].
  by rewrite loweredBits_leaves.
Qed.

Lemma getLowered_leaves_witness :
  logicalParameters
    (mkFn [Nominal "Self"]
       (FunctionType [Nominal "A"; Nominal "B"] (Nominal "R")))
    true false
  = Some [Nominal "A"; Nominal "B"; Nominal "Self"]
  /\ AutoDiffParameterIndices.getLowered
       (AutoDiffParameterIndices.mk [true; false; true] true)
       (mkFn [Nominal "Self"]
          (FunctionType [Nominal "A"; Nominal "B"] (Nominal "R")))
       false
     = Done [true; false; true].
Proof.
  assert (H1 : logicalParameters
    (mkFn [Nominal "Self"]
       (FunctionType [Nominal "A"; Nominal "B"] (Nominal "R")))
    (AutoDiffParameterIndices.isMethodFlag
       (AutoDiffParameterIndices.mk [true; false; true] true)) false
    = Some [Nominal "A"; Nominal "B"; Nominal "Self"]) by reflexivity.
  assert (H2 : Forall isLeaf [Nominal "A"; Nominal "B"; Nominal "Self"]).
  { repeat (apply Forall_cons; split); try (by apply Forall_nil); exact I. }
  assert (H3 : length (AutoDiffParameterIndices.indices
                         (AutoDiffParameterIndices.mk [true; false; true] true))
               = length [Nominal "A"; Nominal "B"; Nominal "Self"])
    by reflexivity.
  assert (H4 : Z.of_nat (length [Nominal "A"; Nominal "B"; Nominal "Self"])
               < U32.modulus) by reflexivity.
  split; [exact H1|].
  exact (getLowered_leaves _ _ _ _ H1 H2 H3 H4).
Defined.

(** X16. For a method set, the curried and the uncurried shape of the same
    method are lowered alike: [getLowered] on [(Self) -> (params) -> R] with
    [selfUncurried = false] is [getLowered] on [(params, Self) -> R] with
    [selfUncurried = true], as a result or as a fatal error. *)
Theorem getLowered_uncurried
    (x : AutoDiffParameterIndices.t) (self : Ty) (params : list Ty)
    (result1 result2 : Ty) :
  AutoDiffParameterIndices.isMethodFlag x = true ->
  AutoDiffParameterIndices.getLowered x
    (mkFn [self] (FunctionType params result1)) false
  = AutoDiffParameterIndices.getLowered x
      (mkFn (params ++ [self]) result2) true.
Proof.
  intros Hm. unfold AutoDiffParameterIndices.getLowered.
  rewrite Hm. unfold unwrapSelfParameter.
  change (getNumParams (mkFn [self] (FunctionType params result1)) =? 1)
    with true.
  cbn [getResult castToAnyFunctionType bind andb negb getParams].
  change (getParamType (mkFn [self] (FunctionType params result1)) 0)
    with (Done self).
  cbn [bind]. by rewrite fold_left_app.
Qed.

Lemma getLowered_uncurried_witness :
  AutoDiffParameterIndices.isMethodFlag
    (AutoDiffParameterIndices.mk [true; false; true] true) = true
  /\ AutoDiffParameterIndices.getLowered
       (AutoDiffParameterIndices.mk [true; false; true] true)
       (mkFn [Nominal "Self"]
          (FunctionType [TupleType [Nominal "A"; Nominal "B"]; Nominal "C"]
             (Nominal "R")))
       false
     = AutoDiffParameterIndices.getLowered
         (AutoDiffParameterIndices.mk [true; false; true] true)
         (mkFn ([TupleType [Nominal "A"; Nominal "B"]; Nominal "C"]
                ++ [Nominal "Self"]) (Nominal "R"))
         true.
Proof.
  split; [reflexivity|].
  exact (getLowered_uncurried
           (AutoDiffParameterIndices.mk [true; false; true] true)
           (Nominal "Self")
           [TupleType [Nominal "A"; Nominal "B"]; Nominal "C"]
           (Nominal "R") (Nominal "R") eq_refl).
Defined.



(** ** Lowering against the selected types, and lowering of fresh sets *)

Section LoweringAgainstSubset.
Import AutoDiffParameterIndices.




End LoweringAgainstSubset.




